(** * LolSkinsTracker: the data layer of [src/LolSkinsTracker.tsx]

    A shallow embedding of the helpers and state updaters of the skins
    tracker: [normalize], [nameToId], [loadInitialChampions],
    [fetchChampionSkins], [updateChampion], [addSkin], [importJson],
    [mergeSkins] and [prefillChampion], followed by the properties proved
    about them.  Rendering code is not modelled. *)

From Stdlib Require Import Floats.
From stdpp Require Import gmap list strings.

(** ** Strings

    A JavaScript string is modelled as the list of its code points.  The
    operations used by the source ([toLowerCase], [normalize("NFD")], the
    [u]-flagged regular expression, [trim], the string iterator) all work
    code point by code point. *)
Abbreviation jsstring := (list N).

(** ASCII literals of the source, as code point lists. *)
Definition str (s : string) : jsstring :=
  (λ a, Ascii.N_of_ascii a) <$> String.list_ascii_of_string s.

(** ** The runtime's Unicode data

    [String.prototype.toLowerCase], [String.prototype.normalize] and the
    property escape [\p{Diacritic}] are driven by tables of the JavaScript
    runtime, which are not part of the repository.  The tables below list
    the entries of the Unicode Character Database (version 14) for the code
    points U+0000..U+036F: Basic Latin, Latin-1 Supplement, Latin Extended-A
    and -B, IPA Extensions, Spacing Modifier Letters and Combining
    Diacritical Marks.  A code point without an entry is left alone by the
    functions that read the tables, so statements about [normalize] that
    depend on the tables are made for strings within [Unicode.covered]. *)
Module Unicode.
Local Open Scope N_scope.

(** Full lowercase mappings (UnicodeData.txt and the unconditional entries
    of SpecialCasing.txt). *)
Definition lowercase_table : list (N * list N) :=
[
  (0x41, [0x61]); (0x42, [0x62]); (0x43, [0x63]); (0x44, [0x64]); (0x45, [0x65]); (0x46, [0x66]);
  (0x47, [0x67]); (0x48, [0x68]); (0x49, [0x69]); (0x4A, [0x6A]); (0x4B, [0x6B]); (0x4C, [0x6C]);
  (0x4D, [0x6D]); (0x4E, [0x6E]); (0x4F, [0x6F]); (0x50, [0x70]); (0x51, [0x71]); (0x52, [0x72]);
  (0x53, [0x73]); (0x54, [0x74]); (0x55, [0x75]); (0x56, [0x76]); (0x57, [0x77]); (0x58, [0x78]);
  (0x59, [0x79]); (0x5A, [0x7A]); (0xC0, [0xE0]); (0xC1, [0xE1]); (0xC2, [0xE2]); (0xC3, [0xE3]);
  (0xC4, [0xE4]); (0xC5, [0xE5]); (0xC6, [0xE6]); (0xC7, [0xE7]); (0xC8, [0xE8]); (0xC9, [0xE9]);
  (0xCA, [0xEA]); (0xCB, [0xEB]); (0xCC, [0xEC]); (0xCD, [0xED]); (0xCE, [0xEE]); (0xCF, [0xEF]);
  (0xD0, [0xF0]); (0xD1, [0xF1]); (0xD2, [0xF2]); (0xD3, [0xF3]); (0xD4, [0xF4]); (0xD5, [0xF5]);
  (0xD6, [0xF6]); (0xD8, [0xF8]); (0xD9, [0xF9]); (0xDA, [0xFA]); (0xDB, [0xFB]); (0xDC, [0xFC]);
  (0xDD, [0xFD]); (0xDE, [0xFE]); (0x100, [0x101]); (0x102, [0x103]); (0x104, [0x105]); (0x106, [0x107]);
  (0x108, [0x109]); (0x10A, [0x10B]); (0x10C, [0x10D]); (0x10E, [0x10F]); (0x110, [0x111]); (0x112, [0x113]);
  (0x114, [0x115]); (0x116, [0x117]); (0x118, [0x119]); (0x11A, [0x11B]); (0x11C, [0x11D]); (0x11E, [0x11F]);
  (0x120, [0x121]); (0x122, [0x123]); (0x124, [0x125]); (0x126, [0x127]); (0x128, [0x129]); (0x12A, [0x12B]);
  (0x12C, [0x12D]); (0x12E, [0x12F]); (0x130, [0x69; 0x307]); (0x132, [0x133]); (0x134, [0x135]); (0x136, [0x137]);
  (0x139, [0x13A]); (0x13B, [0x13C]); (0x13D, [0x13E]); (0x13F, [0x140]); (0x141, [0x142]); (0x143, [0x144]);
  (0x145, [0x146]); (0x147, [0x148]); (0x14A, [0x14B]); (0x14C, [0x14D]); (0x14E, [0x14F]); (0x150, [0x151]);
  (0x152, [0x153]); (0x154, [0x155]); (0x156, [0x157]); (0x158, [0x159]); (0x15A, [0x15B]); (0x15C, [0x15D]);
  (0x15E, [0x15F]); (0x160, [0x161]); (0x162, [0x163]); (0x164, [0x165]); (0x166, [0x167]); (0x168, [0x169]);
  (0x16A, [0x16B]); (0x16C, [0x16D]); (0x16E, [0x16F]); (0x170, [0x171]); (0x172, [0x173]); (0x174, [0x175]);
  (0x176, [0x177]); (0x178, [0xFF]); (0x179, [0x17A]); (0x17B, [0x17C]); (0x17D, [0x17E]); (0x181, [0x253]);
  (0x182, [0x183]); (0x184, [0x185]); (0x186, [0x254]); (0x187, [0x188]); (0x189, [0x256]); (0x18A, [0x257]);
  (0x18B, [0x18C]); (0x18E, [0x1DD]); (0x18F, [0x259]); (0x190, [0x25B]); (0x191, [0x192]); (0x193, [0x260]);
  (0x194, [0x263]); (0x196, [0x269]); (0x197, [0x268]); (0x198, [0x199]); (0x19C, [0x26F]); (0x19D, [0x272]);
  (0x19F, [0x275]); (0x1A0, [0x1A1]); (0x1A2, [0x1A3]); (0x1A4, [0x1A5]); (0x1A6, [0x280]); (0x1A7, [0x1A8]);
  (0x1A9, [0x283]); (0x1AC, [0x1AD]); (0x1AE, [0x288]); (0x1AF, [0x1B0]); (0x1B1, [0x28A]); (0x1B2, [0x28B]);
  (0x1B3, [0x1B4]); (0x1B5, [0x1B6]); (0x1B7, [0x292]); (0x1B8, [0x1B9]); (0x1BC, [0x1BD]); (0x1C4, [0x1C6]);
  (0x1C5, [0x1C6]); (0x1C7, [0x1C9]); (0x1C8, [0x1C9]); (0x1CA, [0x1CC]); (0x1CB, [0x1CC]); (0x1CD, [0x1CE]);
  (0x1CF, [0x1D0]); (0x1D1, [0x1D2]); (0x1D3, [0x1D4]); (0x1D5, [0x1D6]); (0x1D7, [0x1D8]); (0x1D9, [0x1DA]);
  (0x1DB, [0x1DC]); (0x1DE, [0x1DF]); (0x1E0, [0x1E1]); (0x1E2, [0x1E3]); (0x1E4, [0x1E5]); (0x1E6, [0x1E7]);
  (0x1E8, [0x1E9]); (0x1EA, [0x1EB]); (0x1EC, [0x1ED]); (0x1EE, [0x1EF]); (0x1F1, [0x1F3]); (0x1F2, [0x1F3]);
  (0x1F4, [0x1F5]); (0x1F6, [0x195]); (0x1F7, [0x1BF]); (0x1F8, [0x1F9]); (0x1FA, [0x1FB]); (0x1FC, [0x1FD]);
  (0x1FE, [0x1FF]); (0x200, [0x201]); (0x202, [0x203]); (0x204, [0x205]); (0x206, [0x207]); (0x208, [0x209]);
  (0x20A, [0x20B]); (0x20C, [0x20D]); (0x20E, [0x20F]); (0x210, [0x211]); (0x212, [0x213]); (0x214, [0x215]);
  (0x216, [0x217]); (0x218, [0x219]); (0x21A, [0x21B]); (0x21C, [0x21D]); (0x21E, [0x21F]); (0x220, [0x19E]);
  (0x222, [0x223]); (0x224, [0x225]); (0x226, [0x227]); (0x228, [0x229]); (0x22A, [0x22B]); (0x22C, [0x22D]);
  (0x22E, [0x22F]); (0x230, [0x231]); (0x232, [0x233]); (0x23A, [0x2C65]); (0x23B, [0x23C]); (0x23D, [0x19A]);
  (0x23E, [0x2C66]); (0x241, [0x242]); (0x243, [0x180]); (0x244, [0x289]); (0x245, [0x28C]); (0x246, [0x247]);
  (0x248, [0x249]); (0x24A, [0x24B]); (0x24C, [0x24D]); (0x24E, [0x24F])
].

(** Full canonical decompositions (the decomposition mapping applied
    recursively). *)
Definition decomposition_table : list (N * list N) :=
[
  (0xC0, [0x41; 0x300]); (0xC1, [0x41; 0x301]); (0xC2, [0x41; 0x302]); (0xC3, [0x41; 0x303]);
  (0xC4, [0x41; 0x308]); (0xC5, [0x41; 0x30A]); (0xC7, [0x43; 0x327]); (0xC8, [0x45; 0x300]);
  (0xC9, [0x45; 0x301]); (0xCA, [0x45; 0x302]); (0xCB, [0x45; 0x308]); (0xCC, [0x49; 0x300]);
  (0xCD, [0x49; 0x301]); (0xCE, [0x49; 0x302]); (0xCF, [0x49; 0x308]); (0xD1, [0x4E; 0x303]);
  (0xD2, [0x4F; 0x300]); (0xD3, [0x4F; 0x301]); (0xD4, [0x4F; 0x302]); (0xD5, [0x4F; 0x303]);
  (0xD6, [0x4F; 0x308]); (0xD9, [0x55; 0x300]); (0xDA, [0x55; 0x301]); (0xDB, [0x55; 0x302]);
  (0xDC, [0x55; 0x308]); (0xDD, [0x59; 0x301]); (0xE0, [0x61; 0x300]); (0xE1, [0x61; 0x301]);
  (0xE2, [0x61; 0x302]); (0xE3, [0x61; 0x303]); (0xE4, [0x61; 0x308]); (0xE5, [0x61; 0x30A]);
  (0xE7, [0x63; 0x327]); (0xE8, [0x65; 0x300]); (0xE9, [0x65; 0x301]); (0xEA, [0x65; 0x302]);
  (0xEB, [0x65; 0x308]); (0xEC, [0x69; 0x300]); (0xED, [0x69; 0x301]); (0xEE, [0x69; 0x302]);
  (0xEF, [0x69; 0x308]); (0xF1, [0x6E; 0x303]); (0xF2, [0x6F; 0x300]); (0xF3, [0x6F; 0x301]);
  (0xF4, [0x6F; 0x302]); (0xF5, [0x6F; 0x303]); (0xF6, [0x6F; 0x308]); (0xF9, [0x75; 0x300]);
  (0xFA, [0x75; 0x301]); (0xFB, [0x75; 0x302]); (0xFC, [0x75; 0x308]); (0xFD, [0x79; 0x301]);
  (0xFF, [0x79; 0x308]); (0x100, [0x41; 0x304]); (0x101, [0x61; 0x304]); (0x102, [0x41; 0x306]);
  (0x103, [0x61; 0x306]); (0x104, [0x41; 0x328]); (0x105, [0x61; 0x328]); (0x106, [0x43; 0x301]);
  (0x107, [0x63; 0x301]); (0x108, [0x43; 0x302]); (0x109, [0x63; 0x302]); (0x10A, [0x43; 0x307]);
  (0x10B, [0x63; 0x307]); (0x10C, [0x43; 0x30C]); (0x10D, [0x63; 0x30C]); (0x10E, [0x44; 0x30C]);
  (0x10F, [0x64; 0x30C]); (0x112, [0x45; 0x304]); (0x113, [0x65; 0x304]); (0x114, [0x45; 0x306]);
  (0x115, [0x65; 0x306]); (0x116, [0x45; 0x307]); (0x117, [0x65; 0x307]); (0x118, [0x45; 0x328]);
  (0x119, [0x65; 0x328]); (0x11A, [0x45; 0x30C]); (0x11B, [0x65; 0x30C]); (0x11C, [0x47; 0x302]);
  (0x11D, [0x67; 0x302]); (0x11E, [0x47; 0x306]); (0x11F, [0x67; 0x306]); (0x120, [0x47; 0x307]);
  (0x121, [0x67; 0x307]); (0x122, [0x47; 0x327]); (0x123, [0x67; 0x327]); (0x124, [0x48; 0x302]);
  (0x125, [0x68; 0x302]); (0x128, [0x49; 0x303]); (0x129, [0x69; 0x303]); (0x12A, [0x49; 0x304]);
  (0x12B, [0x69; 0x304]); (0x12C, [0x49; 0x306]); (0x12D, [0x69; 0x306]); (0x12E, [0x49; 0x328]);
  (0x12F, [0x69; 0x328]); (0x130, [0x49; 0x307]); (0x134, [0x4A; 0x302]); (0x135, [0x6A; 0x302]);
  (0x136, [0x4B; 0x327]); (0x137, [0x6B; 0x327]); (0x139, [0x4C; 0x301]); (0x13A, [0x6C; 0x301]);
  (0x13B, [0x4C; 0x327]); (0x13C, [0x6C; 0x327]); (0x13D, [0x4C; 0x30C]); (0x13E, [0x6C; 0x30C]);
  (0x143, [0x4E; 0x301]); (0x144, [0x6E; 0x301]); (0x145, [0x4E; 0x327]); (0x146, [0x6E; 0x327]);
  (0x147, [0x4E; 0x30C]); (0x148, [0x6E; 0x30C]); (0x14C, [0x4F; 0x304]); (0x14D, [0x6F; 0x304]);
  (0x14E, [0x4F; 0x306]); (0x14F, [0x6F; 0x306]); (0x150, [0x4F; 0x30B]); (0x151, [0x6F; 0x30B]);
  (0x154, [0x52; 0x301]); (0x155, [0x72; 0x301]); (0x156, [0x52; 0x327]); (0x157, [0x72; 0x327]);
  (0x158, [0x52; 0x30C]); (0x159, [0x72; 0x30C]); (0x15A, [0x53; 0x301]); (0x15B, [0x73; 0x301]);
  (0x15C, [0x53; 0x302]); (0x15D, [0x73; 0x302]); (0x15E, [0x53; 0x327]); (0x15F, [0x73; 0x327]);
  (0x160, [0x53; 0x30C]); (0x161, [0x73; 0x30C]); (0x162, [0x54; 0x327]); (0x163, [0x74; 0x327]);
  (0x164, [0x54; 0x30C]); (0x165, [0x74; 0x30C]); (0x168, [0x55; 0x303]); (0x169, [0x75; 0x303]);
  (0x16A, [0x55; 0x304]); (0x16B, [0x75; 0x304]); (0x16C, [0x55; 0x306]); (0x16D, [0x75; 0x306]);
  (0x16E, [0x55; 0x30A]); (0x16F, [0x75; 0x30A]); (0x170, [0x55; 0x30B]); (0x171, [0x75; 0x30B]);
  (0x172, [0x55; 0x328]); (0x173, [0x75; 0x328]); (0x174, [0x57; 0x302]); (0x175, [0x77; 0x302]);
  (0x176, [0x59; 0x302]); (0x177, [0x79; 0x302]); (0x178, [0x59; 0x308]); (0x179, [0x5A; 0x301]);
  (0x17A, [0x7A; 0x301]); (0x17B, [0x5A; 0x307]); (0x17C, [0x7A; 0x307]); (0x17D, [0x5A; 0x30C]);
  (0x17E, [0x7A; 0x30C]); (0x1A0, [0x4F; 0x31B]); (0x1A1, [0x6F; 0x31B]); (0x1AF, [0x55; 0x31B]);
  (0x1B0, [0x75; 0x31B]); (0x1CD, [0x41; 0x30C]); (0x1CE, [0x61; 0x30C]); (0x1CF, [0x49; 0x30C]);
  (0x1D0, [0x69; 0x30C]); (0x1D1, [0x4F; 0x30C]); (0x1D2, [0x6F; 0x30C]); (0x1D3, [0x55; 0x30C]);
  (0x1D4, [0x75; 0x30C]); (0x1D5, [0x55; 0x308; 0x304]); (0x1D6, [0x75; 0x308; 0x304]); (0x1D7, [0x55; 0x308; 0x301]);
  (0x1D8, [0x75; 0x308; 0x301]); (0x1D9, [0x55; 0x308; 0x30C]); (0x1DA, [0x75; 0x308; 0x30C]); (0x1DB, [0x55; 0x308; 0x300]);
  (0x1DC, [0x75; 0x308; 0x300]); (0x1DE, [0x41; 0x308; 0x304]); (0x1DF, [0x61; 0x308; 0x304]); (0x1E0, [0x41; 0x307; 0x304]);
  (0x1E1, [0x61; 0x307; 0x304]); (0x1E2, [0xC6; 0x304]); (0x1E3, [0xE6; 0x304]); (0x1E6, [0x47; 0x30C]);
  (0x1E7, [0x67; 0x30C]); (0x1E8, [0x4B; 0x30C]); (0x1E9, [0x6B; 0x30C]); (0x1EA, [0x4F; 0x328]);
  (0x1EB, [0x6F; 0x328]); (0x1EC, [0x4F; 0x328; 0x304]); (0x1ED, [0x6F; 0x328; 0x304]); (0x1EE, [0x1B7; 0x30C]);
  (0x1EF, [0x292; 0x30C]); (0x1F0, [0x6A; 0x30C]); (0x1F4, [0x47; 0x301]); (0x1F5, [0x67; 0x301]);
  (0x1F8, [0x4E; 0x300]); (0x1F9, [0x6E; 0x300]); (0x1FA, [0x41; 0x30A; 0x301]); (0x1FB, [0x61; 0x30A; 0x301]);
  (0x1FC, [0xC6; 0x301]); (0x1FD, [0xE6; 0x301]); (0x1FE, [0xD8; 0x301]); (0x1FF, [0xF8; 0x301]);
  (0x200, [0x41; 0x30F]); (0x201, [0x61; 0x30F]); (0x202, [0x41; 0x311]); (0x203, [0x61; 0x311]);
  (0x204, [0x45; 0x30F]); (0x205, [0x65; 0x30F]); (0x206, [0x45; 0x311]); (0x207, [0x65; 0x311]);
  (0x208, [0x49; 0x30F]); (0x209, [0x69; 0x30F]); (0x20A, [0x49; 0x311]); (0x20B, [0x69; 0x311]);
  (0x20C, [0x4F; 0x30F]); (0x20D, [0x6F; 0x30F]); (0x20E, [0x4F; 0x311]); (0x20F, [0x6F; 0x311]);
  (0x210, [0x52; 0x30F]); (0x211, [0x72; 0x30F]); (0x212, [0x52; 0x311]); (0x213, [0x72; 0x311]);
  (0x214, [0x55; 0x30F]); (0x215, [0x75; 0x30F]); (0x216, [0x55; 0x311]); (0x217, [0x75; 0x311]);
  (0x218, [0x53; 0x326]); (0x219, [0x73; 0x326]); (0x21A, [0x54; 0x326]); (0x21B, [0x74; 0x326]);
  (0x21E, [0x48; 0x30C]); (0x21F, [0x68; 0x30C]); (0x226, [0x41; 0x307]); (0x227, [0x61; 0x307]);
  (0x228, [0x45; 0x327]); (0x229, [0x65; 0x327]); (0x22A, [0x4F; 0x308; 0x304]); (0x22B, [0x6F; 0x308; 0x304]);
  (0x22C, [0x4F; 0x303; 0x304]); (0x22D, [0x6F; 0x303; 0x304]); (0x22E, [0x4F; 0x307]); (0x22F, [0x6F; 0x307]);
  (0x230, [0x4F; 0x307; 0x304]); (0x231, [0x6F; 0x307; 0x304]); (0x232, [0x59; 0x304]); (0x233, [0x79; 0x304]);
  (0x340, [0x300]); (0x341, [0x301]); (0x343, [0x313]); (0x344, [0x308; 0x301])
].

(** Canonical combining classes other than 0, as inclusive ranges. *)
Definition combining_class_table : list (N * N * N) :=
[
  (0x300, 0x314, 230); (0x315, 0x315, 232); (0x316, 0x319, 220); (0x31A, 0x31A, 232); (0x31B, 0x31B, 216);
  (0x31C, 0x320, 220); (0x321, 0x322, 202); (0x323, 0x326, 220); (0x327, 0x328, 202); (0x329, 0x333, 220);
  (0x334, 0x338, 1); (0x339, 0x33C, 220); (0x33D, 0x344, 230); (0x345, 0x345, 240); (0x346, 0x346, 230);
  (0x347, 0x349, 220); (0x34A, 0x34C, 230); (0x34D, 0x34E, 220); (0x350, 0x352, 230); (0x353, 0x356, 220);
  (0x357, 0x357, 230); (0x358, 0x358, 232); (0x359, 0x35A, 220); (0x35B, 0x35B, 230); (0x35C, 0x35C, 233);
  (0x35D, 0x35E, 234); (0x35F, 0x35F, 233); (0x360, 0x361, 234); (0x362, 0x362, 233); (0x363, 0x36F, 230)
].

(** Code points with the [Diacritic] property, as inclusive ranges. *)
Definition diacritic_table : list (N * N) :=
  [(0x5E, 0x5E); (0x60, 0x60); (0xA8, 0xA8); (0xAF, 0xAF); (0xB4, 0xB4);
   (0xB7, 0xB8); (0x2B0, 0x34E); (0x350, 0x357); (0x35D, 0x362)].

(** ECMAScript's WhiteSpace and LineTerminator code points, matched by
    [\s] and removed by [trim]; this list is complete. *)
Definition white_space_table : list (N * N) :=
  [(0x9, 0xD); (0x20, 0x20); (0xA0, 0xA0); (0x1680, 0x1680);
   (0x2000, 0x200A); (0x2028, 0x2029); (0x202F, 0x202F); (0x205F, 0x205F);
   (0x3000, 0x3000); (0xFEFF, 0xFEFF)].

Fixpoint assoc (c : N) (t : list (N * list N)) : option (list N) :=
  match t with
  | [] => None
  | (k, v) :: t => if k =? c then Some v else assoc c t
  end.

Definition in_ranges (c : N) (t : list (N * N)) : bool :=
  existsb (λ r, (r.1 <=? c) && (c <=? r.2)) t.

Definition lower (c : N) : list N := default [c] (assoc c lowercase_table).

Definition decompose (c : N) : list N :=
  default [c] (assoc c decomposition_table).

Fixpoint class_in (c : N) (t : list (N * N * N)) : N :=
  match t with
  | [] => 0
  | (a, b, k) :: t => if (a <=? c) && (c <=? b) then k else class_in c t
  end.

Definition ccc (c : N) : N := class_in c combining_class_table.

Definition isDiacritic (c : N) : bool := in_ranges c diacritic_table.

Definition isWhiteSpace (c : N) : bool := in_ranges c white_space_table.

(** The code points whose table entries are listed above. *)
Definition covered (c : N) : Prop := c <= 0x36F.
End Unicode.

(** [s.toLowerCase()]. *)
Definition toLowerCase (s : jsstring) : jsstring := s ≫= Unicode.lower.

(** The Canonical Ordering Algorithm: a combining mark moves left past the
    marks of a higher class that precede it, and never past a starter.
    [out] is the text ordered so far, last code point first. *)
Fixpoint reorder_insert (c : N) (out : list N) : list N :=
  match out with
  | d :: out' =>
      if ((0 <? Unicode.ccc c) && (Unicode.ccc c <? Unicode.ccc d))%N
      then d :: reorder_insert c out'
      else c :: out
  | [] => [c]
  end.

Definition canonicalOrder (s : jsstring) : jsstring :=
  reverse (foldl (λ out c, reorder_insert c out) [] s).

(** [s.normalize("NFD")]. *)
Definition normalizeNFD (s : jsstring) : jsstring :=
  canonicalOrder (s ≫= Unicode.decompose).

(** The class ['`.\-\s] of the second [replace]. *)
Definition isPunctOrSpace (c : N) : bool :=
  bool_decide (c ∈ str "'`.-") || Unicode.isWhiteSpace c.

(** [normalize]: accent/punctuation-insensitive search normalization. *)
Definition normalize (s : jsstring) : jsstring :=
  filter (λ c, isPunctOrSpace c = false)
    (filter (λ c, Unicode.isDiacritic c = false)
       (normalizeNFD (toLowerCase s))).

Definition nameToId (name : jsstring) : jsstring :=
  str "champ_" ++ normalize name.

(** [s.trim()]. *)
Fixpoint trimStart (s : jsstring) : jsstring :=
  match s with
  | c :: s' => if Unicode.isWhiteSpace c then trimStart s' else s
  | [] => []
  end.

Definition trim (s : jsstring) : jsstring :=
  reverse (trimStart (reverse (trimStart s))).

(** ** Values of the runtime

    What [JSON.parse] returns, and what an untyped property read can yield.
    Numbers are IEEE 754 doubles. *)
#[warnings="-register-all"]
Inductive value :=
| VUndefined
| VNull
| VBool (b : bool)
| VNumber (x : float)
| VString (s : jsstring)
| VArray (elems : list value)
| VObject (props : list (jsstring * value)).

(** Truthiness, as tested by [if], [||], [!] and [!!]. *)
Definition truthy (v : value) : bool :=
  match v with
  | VUndefined | VNull => false
  | VBool b => b
  | VNumber x => negb (PrimFloat.eqb x 0 || negb (PrimFloat.eqb x x))
  | VString s => negb (bool_decide (s = []))
  | VArray _ | VObject _ => true
  end.

Fixpoint own_prop (k : jsstring) (props : list (jsstring * value)) : value :=
  match props with
  | [] => VUndefined
  | (k', v) :: props => if bool_decide (k' = k) then v else own_prop k props
  end.

(** ** Fresh identifiers and exceptions

    [uid()] draws from the runtime's random source.  A run is described by
    the sequence of strings its successive calls return; the state threaded
    through the code is the number of calls made so far. *)
Class UidSource := uid_value : nat → jsstring.

Definition Gen (A : Type) : Type := nat → A * nat.

#[export] Instance gen_ret : MRet Gen := λ A a n, (a, n).
#[export] Instance gen_bind : MBind Gen := λ A B f m n,
  let (a, n') := m n in f a n'.

Definition uid `{UidSource} : Gen jsstring := λ n, (uid_value n, S n).

(** Code that may throw: [None] is a thrown exception.  Identifiers drawn
    before the throw stay drawn. *)
Definition Js (A : Type) : Type := nat → option A * nat.

#[export] Instance js_ret : MRet Js := λ A a n, (Some a, n).
#[export] Instance js_bind : MBind Js := λ A B f m n,
  match m n with
  | (Some a, n') => f a n'
  | (None, n') => (None, n')
  end.

Definition throw {A} : Js A := λ n, (None, n).

Definition lift {A} (m : Gen A) : Js A := λ n,
  let (a, n') := m n in (Some a, n').

(** [try { m } catch { handler }]. *)
Definition try_catch {A} (m : Js A) (handler : Gen A) : Gen A := λ n,
  match m n with
  | (Some a, n') => (a, n')
  | (None, n') => handler n'
  end.

(** The property read [v.k] for a key other than an index or [length]:
    a TypeError on [undefined] and [null], [undefined] on the other values
    that are not objects. *)
Definition prop (v : value) (k : jsstring) : Js value :=
  match v with
  | VUndefined | VNull => throw
  | VObject props => mret (own_prop k props)
  | _ => mret VUndefined
  end.

(** [for (const c of v)]: arrays and strings are iterable, a string by code
    point; anything else throws a TypeError. *)
Definition iterate (v : value) : Js (list value) :=
  match v with
  | VArray elems => mret elems
  | VString s => mret ((λ c, VString [c]) <$> s)
  | _ => throw
  end.

(** ** Types *)
Module Skin.
Record t := mk { id : jsstring; name : jsstring; checked : bool }.
End Skin.

Module Champion.
Record t := mk { id : jsstring; name : jsstring; skins : list Skin.t }.
End Champion.

Module DDragonSkin.
Record t := mk { id : jsstring; num : float; name : jsstring; chromas : bool }.
End DDragonSkin.

Module DDragonChampion.
Record t := mk { id : jsstring; name : jsstring; skins : list DDragonSkin.t }.
End DDragonChampion.

Module DDragonChampionDetail.
Record t := mk {
  type : jsstring;
  format : jsstring;
  version : jsstring;
  data : gmap jsstring DDragonChampion.t
}.
End DDragonChampionDetail.

(** Typed objects as runtime values. *)
Definition skinObject (i nm ch : value) : value :=
  VObject [(str "id", i); (str "name", nm); (str "checked", ch)].

Definition championObject (i nm sk : value) : value :=
  VObject [(str "id", i); (str "name", nm); (str "skins", sk)].

Definition of_Skin (s : Skin.t) : value :=
  skinObject (VString (Skin.id s)) (VString (Skin.name s)) (VBool (Skin.checked s)).

Definition of_Champion (c : Champion.t) : value :=
  championObject (VString (Champion.id c)) (VString (Champion.name c))
    (VArray (of_Skin <$> Champion.skins c)).

(** ** Constants *)
Definition DDRAGON_LOCALE : jsstring := str "fr_FR".

Definition CHAMPION_NAMES : list jsstring :=
  str <$> [
    "Aatrox"; "Ahri"; "Akali"; "Akshan"; "Alistar"; "Ambessa"; "Amumu";
    "Anivia"; "Annie"; "Aphelios"; "Ashe"; "Aurelion Sol"; "Aurora"; "Azir";
    "Bard"; "Bel'Veth"; "Blitzcrank"; "Brand"; "Braum"; "Briar"; "Caitlyn";
    "Camille"; "Cassiopeia"; "Cho'Gath"; "Corki"; "Darius"; "Diana";
    "Dr. Mundo"; "Draven"; "Ekko"; "Elise"; "Evelynn"; "Ezreal";
    "Fiddlesticks"; "Fiora"; "Fizz"; "Galio"; "Gangplank"; "Garen"; "Gnar";
    "Gragas"; "Graves"; "Gwen"; "Hecarim"; "Heimerdinger"; "Hwei"; "Illaoi";
    "Irelia"; "Ivern"; "Janna"; "Jarvan IV"; "Jax"; "Jayce"; "Jhin"; "Jinx";
    "Kai'Sa"; "Kalista"; "Karma"; "Karthus"; "Kassadin"; "Katarina"; "Kayle";
    "Kayn"; "Kennen"; "Kha'Zix"; "Kindred"; "Kled"; "Kog'Maw"; "K'Sante";
    "LeBlanc"; "Lee Sin"; "Leona"; "Lillia"; "Lissandra"; "Lucian"; "Lulu";
    "Lux"; "Malphite"; "Malzahar"; "Maokai"; "Master Yi"; "Mel"; "Milio";
    "Miss Fortune"; "Mordekaiser"; "Morgana"; "Naafiri"; "Nami"; "Nasus";
    "Nautilus"; "Neeko"; "Nidalee"; "Nilah"; "Nocturne"; "Nunu"; "Olaf";
    "Orianna"; "Ornn"; "Pantheon"; "Poppy"; "Pyke"; "Qiyana"; "Quinn";
    "Rakan"; "Rammus"; "Rek'Sai"; "Rell"; "Renata Glasc"; "Renekton";
    "Rengar"; "Riven"; "Rumble"; "Ryze"; "Samira"; "Sejuani"; "Senna";
    "Seraphine"; "Sett"; "Shaco"; "Shen"; "Shyvana"; "Singed"; "Sion";
    "Sivir"; "Skarner"; "Smolder"; "Sona"; "Soraka"; "Swain"; "Sylas";
    "Syndra"; "Tahm Kench"; "Taliyah"; "Talon"; "Taric"; "Teemo"; "Thresh";
    "Tristana"; "Trundle"; "Tryndamere"; "Twisted Fate"; "Twitch"; "Udyr";
    "Urgot"; "Varus"; "Vayne"; "Veigar"; "Vel'Koz"; "Vex"; "Vi"; "Viego";
    "Viktor"; "Vladimir"; "Volibear"; "Warwick"; "Wukong"; "Xayah"; "Xerath";
    "Xin Zhao"; "Yasuo"; "Yone"; "Yorick"; "Yunara"; "Yuumi"; "Zac"; "Zed";
    "Zeri"; "Ziggs"; "Zilean"; "Zoe"; "Zyra"
  ].

(** ** Persistence *)

(** What [localStorage.getItem(STORAGE_KEY)] and [JSON.parse] give. *)
Inductive stored :=
| NoItem                (* [raw] is [null] or the empty string *)
| NotJson               (* [JSON.parse(raw)] throws *)
| Json (parsed : value).

(** The arrow function
    [(s) => ({ id: s.id || uid(), name: s.name, checked: !!s.checked })]
    of [loadInitialChampions] and [importJson]. *)
Definition shapeSkin `{UidSource} (s : value) : Js value :=
  i ← prop s (str "id");
  i ← (if truthy i then mret i else u ← lift uid; mret (VString u));
  nm ← prop s (str "name");
  ch ← prop s (str "checked");
  mret (skinObject i nm (VBool (truthy ch))).

(** [byName.set(c.name, c)] for each element in turn.  Only string keys are
    recorded: the map is read with strings only, and a string is equal to no
    key of another kind. *)
Fixpoint indexByName (byName : gmap jsstring value) (elems : list value)
  : Js (gmap jsstring value) :=
  match elems with
  | [] => mret byName
  | c :: elems =>
      k ← prop c (str "name");
      indexByName (match k with VString k => <[k := c]> byName | _ => byName end) elems
  end.

Definition freshChampion (name : jsstring) : value :=
  championObject (VString (nameToId name)) (VString name) (VArray []).

(** The callback of [CHAMPION_NAMES.map] in [loadInitialChampions]. *)
Definition mergeCanonical `{UidSource} (byName : gmap jsstring value)
    (name : jsstring) : Js value :=
  match byName !! name with
  | Some existing =>
      if truthy existing then
        i ← prop existing (str "id");
        nm ← prop existing (str "name");
        sk ← prop existing (str "skins");
        sk ← match sk with
             | VArray elems => mapM shapeSkin elems
             | _ => mret []
             end;
        mret (championObject (if truthy i then i else VString (nameToId name))
                nm (VArray sk))
      else mret (freshChampion name)
  | None => mret (freshChampion name)
  end.

(** [CHAMPION_NAMES.includes(v)]. *)
Definition isCanonicalName (v : value) : bool :=
  match v with
  | VString k => bool_decide (k ∈ CHAMPION_NAMES)
  | _ => false
  end.

(** The loop [if (!CHAMPION_NAMES.includes(c.name)) merged.push(c)]. *)
Fixpoint customChampions (elems : list value) : Js (list value) :=
  match elems with
  | [] => mret []
  | c :: elems =>
      k ← prop c (str "name");
      rest ← customChampions elems;
      mret (if isCanonicalName k then rest else c :: rest)
  end.

(** The [try] block of [loadInitialChampions]. *)
Definition loadStored `{UidSource} (st : stored) : Js (list value) :=
  parsed ← match st with
           | NoItem => mret VNull
           | NotJson => throw
           | Json v => mret v
           end;
  byName ← (if truthy parsed
            then elems ← iterate parsed; indexByName ∅ elems
            else mret ∅);
  merged ← mapM (mergeCanonical byName) CHAMPION_NAMES;
  if truthy parsed
  then elems ← iterate parsed;
       custom ← customChampions elems;
       mret (merged ++ custom)
  else mret merged.

Definition loadInitialChampions `{UidSource} (st : stored) : Gen (list value) :=
  try_catch (loadStored st) (mret (freshChampion <$> CHAMPION_NAMES)).

(** ** Data Dragon *)

(** What [fetch(url)] gives. *)
Inductive response :=
| Rejected    (* the promise rejects: no network *)
| Responded (ok : bool) (body : option DDragonChampionDetail.t).
    (* [body] is [None] when [res.json()] rejects; a body that parses is
       taken at its declared type [DDragonChampionDetail], the code checks
       no shape and a body of another shape is outside this type *)

(** The address requested by [fetchChampionSkins]. *)
Definition championUrl (version locale key : jsstring) : jsstring :=
  str "https://ddragon.leagueoflegends.com/cdn/" ++ version
  ++ str "/data/" ++ locale ++ str "/champion/" ++ key ++ str ".json".

Definition fetchChampionSkins (fetch : jsstring → response)
    (version locale key : jsstring) : list jsstring :=
  match fetch (championUrl version locale key) with
  | Rejected => []
  | Responded ok body =>
      if negb ok then []
      else match body with
           | None => []
           | Some data =>
               match DDragonChampionDetail.data data !! key with
               | None => []
               | Some champ =>
                   (λ s, trim (DDragonSkin.name s))
                     <$> filter (λ s, PrimFloat.ltb 0 (DDragonSkin.num s) = true)
                           (DDragonChampion.skins champ)
               end
           end
  end.

(** ** Mutations *)

(** The updater that [updateChampion] hands to [setChampions]. *)
Definition updateChampion (id : jsstring) (updater : Champion.t → Gen Champion.t)
    (prev : list Champion.t) : Gen (list Champion.t) :=
  mapM (λ c, if bool_decide (Champion.id c = id) then updater c else mret c) prev.

Definition addSkin `{UidSource} (championId name : jsstring)
    (prev : list Champion.t) : Gen (list Champion.t) :=
  let trimmed := trim name in
  if bool_decide (trimmed = []) then mret prev
  else updateChampion championId
         (λ c, i ← uid;
               mret (Champion.mk (Champion.id c) (Champion.name c)
                       (Champion.skins c ++ [Skin.mk i trimmed false])))
         prev.

(** ** Import *)

(** What [file.text()] and [JSON.parse] give. *)
Inductive upload :=
| FileUnreadable        (* [file.text()] rejects *)
| FileNotJson           (* [JSON.parse(text)] throws *)
| FileJson (data : value).

Inductive imported :=
| Alerted                             (* the [catch] block ran; state untouched *)
| Updated (champions : list value)    (* the state set by the updater *)
| UpdaterThrew.                       (* the updater, run outside the [try], threw *)

(** The callback of [prev.map] in [importJson]. *)
Definition importChampion `{UidSource} (byName : gmap jsstring value)
    (c : Champion.t) : Js value :=
  match byName !! Champion.name c with
  | Some incoming =>
      if truthy incoming then
        sk ← prop incoming (str "skins");
        sk ← match sk with
             | VArray elems => elems ← mapM shapeSkin elems; mret (VArray elems)
             | _ => mret (VArray (of_Skin <$> Champion.skins c))
             end;
        mret (championObject (VString (Champion.id c)) (VString (Champion.name c)) sk)
      else mret (of_Champion c)
  | None => mret (of_Champion c)
  end.

Definition importJson `{UidSource} (file : upload) (prev : list Champion.t)
  : Gen imported := λ n,
  match file with
  | FileJson (VArray elems) =>
      match indexByName ∅ elems n with
      | (Some byName, n) =>
          match mapM (importChampion byName) prev n with
          | (Some champions, n) => (Updated champions, n)
          | (None, n) => (UpdaterThrew, n)
          end
      | (None, n) => (Alerted, n)
      end
  | _ => (Alerted, n)
  end.

(** ** Data Dragon prefill *)

(** [new Map(c.skins.map((s) => [normalize(s.name), s]))]: a later skin
    replaces an earlier one under the same key. *)
Definition existingByName (skins : list Skin.t) : gmap jsstring Skin.t :=
  foldl (λ m s, <[normalize (Skin.name s) := s]> m) ∅ skins.

(** Merge fetched skin names with existing champion skins. *)
Definition mergeSkins `{UidSource} (c : Champion.t) (fetchedNames : list jsstring)
  : Gen Champion.t :=
  let existingByName := existingByName (Champion.skins c) in
  merged ← mapM (λ name,
                   match existingByName !! normalize name with
                   | Some existing => mret existing
                   | None => i ← uid; mret (Skin.mk i name false)
                   end) fetchedNames;
  let custom :=
    filter (λ s, ¬ is_Some (existingByName !! normalize (Skin.name s))
                 ∧ ¬ Exists (λ n, normalize n = normalize (Skin.name s)) fetchedNames)
      (Champion.skins c) in
  mret (Champion.mk (Champion.id c) (Champion.name c) (merged ++ custom)).

Definition prefillChampion `{UidSource} (fetch : jsstring → response)
    (ddVersion : option jsstring) (ddKeyMap : option (gmap jsstring jsstring))
    (c : Champion.t) (prev : list Champion.t) : Gen (list Champion.t) :=
  match ddVersion, ddKeyMap with
  | Some version, Some keyMap =>
      if bool_decide (version = []) then mret prev
      else match keyMap !! normalize (Champion.name c) with
           | None => mret prev
           | Some key =>
               if bool_decide (key = []) then mret prev
               else
                 let names := fetchChampionSkins fetch version DDRAGON_LOCALE key in
                 if bool_decide (length names = 0) then mret prev
                 else updateChampion (Champion.id c)
                        (λ curr, mergeSkins curr names) prev
           end
  | _, _ => mret prev
  end.

(** ** Saving and exporting

    [JSON.stringify] of an array of [Champion] objects, read back by
    [JSON.parse], is that array: the fields are strings, booleans and
    arrays.  [saveChampions] leaves it in the storage slot and [exportJson]
    in the downloaded file. *)
Definition saveChampions (champions : list Champion.t) : stored :=
  Json (VArray (of_Champion <$> champions)).

Definition exportJson (champions : list Champion.t) : upload :=
  FileJson (VArray (of_Champion <$> champions)).

(** ** The Data Dragon index *)
Module DDragonChampionSummary.
Record t := mk { id : jsstring; key : jsstring; name : jsstring; title : jsstring }.
End DDragonChampionSummary.

(** [data] lists the entries in the order of [Object.entries]. *)
Module DDragonChampionIndex.
Record t := mk {
  type : jsstring;
  format : jsstring;
  version : jsstring;
  data : list (jsstring * DDragonChampionSummary.t)
}.
End DDragonChampionIndex.

(** What the request for [versions.json] gives. *)
Inductive versionsResponse :=
| VersionsFailed                       (* [fetch] or [res.json()] rejects *)
| VersionsNotArray                     (* the body is not an array *)
| VersionsList (list : list jsstring).

Definition fetchDdragonLatestVersion (r : versionsResponse) : option jsstring :=
  match r with
  | VersionsList (v :: _) => Some v
  | _ => None
  end.

(** What the request for [champion.json] gives. *)
Inductive indexResponse :=
| IndexRejected
| IndexResponded (ok : bool) (body : option DDragonChampionIndex.t).

Definition fetchChampionIndex (r : indexResponse) : option DDragonChampionIndex.t :=
  match r with
  | IndexRejected => None
  | IndexResponded ok body => if negb ok then None else body
  end.

(** Build normalized-name -> DDragon Key map. *)
Definition buildKeyMap (idx : DDragonChampionIndex.t) : gmap jsstring jsstring :=
  foldl (λ m entry,
           <[normalize (DDragonChampionSummary.id entry.2) := entry.1]>
             (<[normalize (DDragonChampionSummary.name entry.2) := entry.1]> m))
    ∅ (DDragonChampionIndex.data idx).

(** The effect that bootstraps the Data Dragon state: the pair
    [(ddVersion, ddKeyMap)] it leaves, both [null] at first. *)
Definition bootstrap (versions : versionsResponse) (index : jsstring → indexResponse)
  : option jsstring * option (gmap jsstring jsstring) :=
  match fetchDdragonLatestVersion versions with
  | Some v =>
      if bool_decide (v = []) then (None, None)
      else (Some v, buildKeyMap <$> fetchChampionIndex (index v))
  | None => (None, None)
  end.

(** ** Derived views *)

Definition hasChecked (c : Champion.t) : bool :=
  existsb Skin.checked (Champion.skins c).

(** [s.startsWith(q)] and [s.includes(q)]. *)
Fixpoint startsWith (s q : jsstring) : bool :=
  match q, s with
  | [], _ => true
  | a :: q, b :: s => bool_decide (a = b) && startsWith s q
  | _ :: _, [] => false
  end.

Fixpoint includes (s q : jsstring) : bool :=
  startsWith s q
  || match s with
     | [] => false
     | _ :: s => includes s q
     end.

Inductive ShowMode := ShowAll | ShowWith | ShowWithout.

#[export] Instance ShowMode_eq_dec : EqDecision ShowMode.
Proof. solve_decision. Defined.

(** The predicate of [champions.filter] in [filtered]. *)
Definition isShown (normQuery : jsstring) (showMode : ShowMode) (c : Champion.t)
  : bool :=
  if negb (bool_decide (normQuery = []))
     && negb (includes (normalize (Champion.name c)) normQuery)
  then false
  else if bool_decide (showMode = ShowWith) && negb (hasChecked c) then false
  else if bool_decide (showMode = ShowWithout) && hasChecked c then false
  else true.

Definition filtered (champions : list Champion.t) (query : jsstring)
    (showMode : ShowMode) : list Champion.t :=
  filter (λ c, isShown (normalize query) showMode c = true) champions.

Module Totals.
Record t := mk {
  champsWithChecked : nat;
  champsTotal : nat;
  skinChecked : nat;
  skinTotal : nat
}.
End Totals.

Definition totals (champions : list Champion.t) : Totals.t :=
  Totals.mk
    (length (filter (λ c, hasChecked c = true) champions))
    (length champions)
    (foldl (λ acc c,
              acc + length (filter (λ s, Skin.checked s = true) (Champion.skins c)))
       0 champions)
    (foldl (λ acc c, acc + length (Champion.skins c)) 0 champions).

(** ** More mutations *)

Definition toggleAllSkins (championId : jsstring) (checked : bool)
    (prev : list Champion.t) : Gen (list Champion.t) :=
  updateChampion championId
    (λ c, mret (Champion.mk (Champion.id c) (Champion.name c)
                  ((λ s, Skin.mk (Skin.id s) (Skin.name s) checked)
                     <$> Champion.skins c)))
    prev.

Definition toggleSkin (championId skinId : jsstring) (checked : bool)
    (prev : list Champion.t) : Gen (list Champion.t) :=
  updateChampion championId
    (λ c, mret (Champion.mk (Champion.id c) (Champion.name c)
                  ((λ s, if bool_decide (Skin.id s = skinId)
                         then Skin.mk (Skin.id s) (Skin.name s) checked
                         else s)
                     <$> Champion.skins c)))
    prev.

Definition removeSkin (championId skinId : jsstring)
    (prev : list Champion.t) : Gen (list Champion.t) :=
  updateChampion championId
    (λ c, mret (Champion.mk (Champion.id c) (Champion.name c)
                  (filter (λ s, Skin.id s ≠ skinId) (Champion.skins c))))
    prev.

Definition clearAllChecks (prev : list Champion.t) : list Champion.t :=
  (λ c, Champion.mk (Champion.id c) (Champion.name c)
          ((λ s, Skin.mk (Skin.id s) (Skin.name s) false) <$> Champion.skins c))
    <$> prev.

(** ** Batch prefill *)

(** The loop [for (const c of filtered) await prefillChampion(c)]: each
    call updates the state left by the one before. *)
Fixpoint prefillEach `{UidSource} (fetch : jsstring → response)
    (ddVersion : option jsstring) (ddKeyMap : option (gmap jsstring jsstring))
    (visible : list Champion.t) (prev : list Champion.t) : Gen (list Champion.t) :=
  match visible with
  | [] => mret prev
  | c :: visible =>
      next ← prefillChampion fetch ddVersion ddKeyMap c prev;
      prefillEach fetch ddVersion ddKeyMap visible next
  end.

Definition prefillVisible `{UidSource} (fetch : jsstring → response)
    (ddVersion : option jsstring) (ddKeyMap : option (gmap jsstring jsstring))
    (visible : list Champion.t) (prev : list Champion.t) : Gen (list Champion.t) :=
  match ddVersion, ddKeyMap with
  | Some version, Some _ =>
      if bool_decide (version = []) then mret prev
      else prefillEach fetch ddVersion ddKeyMap visible prev
  | _, _ => mret prev
  end.

(** ** The champion row *)

Definition total (champion : Champion.t) : nat :=
  length (Champion.skins champion).

Definition checkedCount (champion : Champion.t) : nat :=
  length (filter (λ s, Skin.checked s = true) (Champion.skins champion)).

Definition allChecked (champion : Champion.t) : bool :=
  (0 <? total champion) && (checkedCount champion =? total champion).

Definition someChecked (champion : Champion.t) : bool :=
  (0 <? checkedCount champion) && (checkedCount champion <? total champion).

(** The value given to [masterRef.current.indeterminate]. *)
Definition indeterminate (champion : Champion.t) : bool :=
  someChecked champion && negb (allChecked champion).

(** * Auxiliary notions used in the statements *)

(** A code point that every step of [normalize] leaves in place. *)
Definition settled (c : N) : Prop :=
  Unicode.lower c = [c] ∧ Unicode.decompose c = [c] ∧ Unicode.ccc c = 0%N
  ∧ Unicode.isDiacritic c = false ∧ isPunctOrSpace c = false.

(** The code points that [normalize] handles without reordering: within the
    tables, and either a starter or a mark that [\p{Diacritic}] removes. *)
Definition plain (c : N) : Prop :=
  Unicode.covered c ∧ (Unicode.ccc c ≠ 0%N → Unicode.isDiacritic c = true).


#[export] Instance settled_dec c : Decision (settled c).
Proof. unfold settled. apply _. Defined.

(** The table check behind the idempotence of [normalize]: whatever a plain
    code point leaves behind after lowercasing, decomposition and the two
    [replace] calls is settled. *)
Definition survivors_settled (c : N) : bool :=
  bool_decide (plain c →
    Forall (λ l, Forall (λ d,
        Unicode.isDiacritic d = false → isPunctOrSpace d = false → settled d)
      (Unicode.decompose l)) (Unicode.lower c)).

(** The skin that [existingByName] holds under a key: the last existing
    skin whose normalized name is the key. *)
Definition lastNamed (key : jsstring) (skins : list Skin.t) : option Skin.t :=
  last (filter (λ s, normalize (Skin.name s) = key) skins).

(** How many of the fetched names before position [i] match no existing
    skin, that is, how many identifiers [mergeSkins] has drawn when it
    reaches position [i]. *)
Definition drawnBefore (skins : list Skin.t) (fetchedNames : list jsstring)
    (i : nat) : nat :=
  length (filter (λ name, lastNamed (normalize name) skins = None)
            (take i fetchedNames)).

(** The body of the first loop of [mergeSkins]. *)
Definition reuseOrCreate `{UidSource} (skins : list Skin.t) (name : jsstring)
  : Gen Skin.t :=
  match existingByName skins !! normalize name with
  | Some existing => mret existing
  | None => i ← uid; mret (Skin.mk i name false)
  end.

(** How many champions before position [i] carry the identifier [id], that
    is, how many times the updater of [addSkin] has run when [prev.map]
    reaches position [i]. *)
Definition updatedBefore (id : jsstring) (prev : list Champion.t) (i : nat) : nat :=
  length (filter (λ c, Champion.id c = id) (take i prev)).

(** The [name] and [skins] properties of an element of a parsed document
    that is neither [null] nor [undefined]. *)
Definition entityProp (k : jsstring) (c : value) : value :=
  match c with
  | VObject props => own_prop k props
  | _ => VUndefined
  end.

(** The element that [byName] holds under a name: the last element of the
    document whose [name] is that string. *)
Definition isNamed (name : jsstring) (c : value) : bool :=
  match entityProp (str "name") c with
  | VString k => bool_decide (k = name)
  | _ => false
  end.

Definition lastEntityNamed (name : jsstring) (elems : list value) : option value :=
  last (filter (λ c, isNamed name c = true) elems).

(** Reading [.id], [.name], [.skins] and [.checked] throws on no element. *)
Definition readable (v : value) : Prop := v ≠ VNull ∧ v ≠ VUndefined.

(** A document on which neither [loadInitialChampions] nor [importJson]
    throws: an array whose elements, and the elements of whose [skins]
    arrays, are readable. *)
Definition wellShaped (elems : list value) : Prop :=
  Forall (λ c, readable c
               ∧ match entityProp (str "skins") c with
                 | VArray items => Forall readable items
                 | _ => True
                 end) elems.

(** A source of identifiers for the examples: the [k]-th call of [uid()]
    returns ["uid-"] followed by the code point [k]. *)
Definition sample_uid : UidSource := λ k, str "uid-" ++ [N.of_nat k].

Definition skin (i nm : string) (ch : bool) : Skin.t :=
  Skin.mk (str i) (str nm) ch.

Definition ahri (skins : list Skin.t) : Champion.t :=
  Champion.mk (str "champ_ahri") (str "Ahri") skins.

(** What [importJson] may put in the place of a current champion [c], given
    the document entry [incoming] that [byName] holds under its name: an
    object with the id and the name of [c], and either the skins of [c]
    (no entry, or an entry whose [skins] is not an array) or the coerced
    skins of the entry. *)
Definition importedAs `{UidSource} (c : Champion.t) (incoming : option value)
    (o : value) : Prop :=
  ∃ sk, o = championObject (VString (Champion.id c)) (VString (Champion.name c)) sk
    ∧ match incoming with
      | None => sk = VArray (of_Skin <$> Champion.skins c)
      | Some incoming =>
          match entityProp (str "skins") incoming with
          | VArray items =>
              ∃ items', sk = VArray items'
                ∧ Forall2 (λ s s', ∃ m m', shapeSkin s m = (Some s', m')) items items'
          | _ => sk = VArray (of_Skin <$> Champion.skins c)
          end
      end.

(** What the two [replace] calls of [normalize] keep. *)
Definition kept (c : N) : Prop :=
  Unicode.isDiacritic c = false ∧ isPunctOrSpace c = false.

(** An index entry answers to a key when its display name or its internal
    id normalizes to the key. *)
Definition answersTo (k : jsstring) (entry : jsstring * DDragonChampionSummary.t)
  : Prop :=
  normalize (DDragonChampionSummary.name entry.2) = k
  ∨ normalize (DDragonChampionSummary.id entry.2) = k.

(** What a prefill may do to a champion: keep its id and name, and leave it
    alone altogether unless its id is one of [ids]. *)
Definition prefilled (ids : list jsstring) (c c' : Champion.t) : Prop :=
  Champion.id c' = Champion.id c ∧ Champion.name c' = Champion.name c
  ∧ (Champion.id c ∉ ids → c' = c).

(** * Properties *)

(** ** [normalize] *)

Lemma reorder_insert_perm c out : reorder_insert c out ≡ₚ c :: out.
Proof.
  induction out as [|d out IH]; simpl; [done|].
  destruct (_ && _); [|done].
  rewrite IH. apply Permutation_swap.
Qed.

Lemma reorder_fold_perm s out :
  foldl (λ out c, reorder_insert c out) out s ≡ₚ s ++ out.
Proof.
  revert out. induction s as [|c s IH]; intros out; simpl; [done|].
  rewrite IH, reorder_insert_perm. by rewrite Permutation_middle.
Qed.

Lemma canonicalOrder_perm s : canonicalOrder s ≡ₚ s.
Proof.
  unfold canonicalOrder.
  by rewrite reverse_Permutation, reorder_fold_perm, app_nil_r.
Qed.

Lemma reorder_fold_starters s out :
  Forall (λ c, Unicode.ccc c = 0%N) s →
  foldl (λ out c, reorder_insert c out) out s = reverse s ++ out.
Proof.
  intros Hs. revert out.
  induction Hs as [|c s Hc _ IH]; intros out; simpl; [done|].
  rewrite IH, reverse_cons, <- app_assoc. f_equal.
  destruct out; simpl; [done|]. by rewrite Hc.
Qed.

Lemma canonicalOrder_starters s :
  Forall (λ c, Unicode.ccc c = 0%N) s → canonicalOrder s = s.
Proof.
  intros Hs. unfold canonicalOrder.
  by rewrite reorder_fold_starters, app_nil_r, reverse_involutive.
Qed.

Lemma bind_singletons (f : N → list N) s :
  Forall (λ c, f c = [c]) s → s ≫= f = s.
Proof. induction 1 as [|c s Hc _ IH]; [done|]. by rewrite bind_cons, Hc, IH. Qed.

Lemma filter_all `{∀ x : N, Decision (P x)} (s : list N) :
  Forall P s → filter P s = s.
Proof.
  induction 1 as [|c s Hc _ IH]; [done|].
  by rewrite filter_cons_True, IH.
Qed.

Lemma normalize_settled s : Forall settled s → normalize s = s.
Proof.
  intros Hs. unfold normalize, normalizeNFD, toLowerCase.
  assert (∀ P : N → Prop, (∀ c, settled c → P c) → Forall P s) as Hall.
  { intros P HP. eapply Forall_impl; [exact Hs|exact HP]. }
  rewrite (bind_singletons Unicode.lower s)
    by (apply Hall; intros c (Hl & Hd & Hc & Hm & Hp); exact Hl).
  rewrite (bind_singletons Unicode.decompose s)
    by (apply Hall; intros c (Hl & Hd & Hc & Hm & Hp); exact Hd).
  rewrite canonicalOrder_starters
    by (apply Hall; intros c (Hl & Hd & Hc & Hm & Hp); exact Hc).
  rewrite (filter_all s)
    by (apply Hall; intros c (Hl & Hd & Hc & Hm & Hp); exact Hm).
  apply filter_all, Hall. intros c (Hl & Hd & Hc & Hm & Hp). exact Hp.
Qed.

Lemma covered_survivors_settled :
  forallb survivors_settled (N.of_nat <$> seq 0 880) = true.
Proof. vm_compute. reflexivity. Qed.

Lemma plain_survivors c l d :
  plain c → l ∈ Unicode.lower c → d ∈ Unicode.decompose l →
  Unicode.isDiacritic d = false → isPunctOrSpace d = false → settled d.
Proof.
  intros Hc Hl Hd.
  pose proof covered_survivors_settled as Hall.
  rewrite forallb_forall in Hall.
  specialize (Hall c). unfold survivors_settled in Hall.
  rewrite bool_decide_eq_true in Hall.
  assert (Hin : In c (N.of_nat <$> seq 0 880)).
  { apply list_elem_of_In, list_elem_of_fmap. exists (N.to_nat c).
    destruct Hc as [Hc _]. unfold Unicode.covered in Hc.
    split; [lia|]. apply elem_of_seq. lia. }
  specialize (Hall Hin Hc).
  rewrite Forall_forall in Hall. specialize (Hall l Hl).
  rewrite Forall_forall in Hall. by apply Hall.
Qed.

Lemma normalize_plain_settled s : Forall plain s → Forall settled (normalize s).
Proof.
  intros Hs. apply Forall_forall. intros d.
  unfold normalize, normalizeNFD, toLowerCase.
  rewrite !list_elem_of_filter, canonicalOrder_perm, list_elem_of_bind.
  intros (Hp & Hd & l & Hdl & Hl).
  apply list_elem_of_bind in Hl as (c & Hl & Hc).
  rewrite Forall_forall in Hs.
  exact (plain_survivors c l d (Hs c Hc) Hl Hdl Hd Hp).
Qed.

(** Where [normalize] is idempotent: on every string of code points up to
    U+036F whose combining marks all have the Diacritic property (every
    such mark but U+0358..U+035C and U+0363..U+036F).  The strings
    ["Cho'Gath"], ["Chogath"] and ["  cho  gath "] have the same normal
    form. *)
Theorem normalize_idempotent_on_plain :
  (∀ s, Forall plain s → normalize (normalize s) = normalize s)
  ∧ normalize (str "Cho'Gath") = normalize (str "Chogath")
  ∧ normalize (str "Chogath") = normalize (str "  cho  gath ").
Proof.
  split; [|by vm_compute].
  intros s Hs. by apply normalize_settled, normalize_plain_settled.
Qed.

Lemma normalize_idempotent_on_plain_witness :
  Forall plain (str "Cho'Gath")
  ∧ normalize (normalize (str "Cho'Gath")) = normalize (str "Cho'Gath").
Proof.
  assert (H : Forall plain (str "Cho'Gath")).
  { apply (bool_decide_unpack _). vm_compute. exact I. }
  split; [exact H|]. exact (proj1 normalize_idempotent_on_plain _ H).
Defined.

(** C7: [normalize] is neither idempotent nor insensitive to punctuation.
    The two [replace] calls run after the NFD step and nothing reorders
    afterwards: in ["a\u0358.\u0359"] the full stop keeps the marks U+0358
    (class 232) and U+0359 (class 220) apart, neither is [\p{Diacritic}], and
    [normalize] returns them in that order.  A second [normalize] puts them
    in canonical order, and so does [normalize] of the same string without
    the full stop: the result of [normalize] is not a fixed point, and two
    strings that differ by one full stop have different normal forms. *)
Theorem normalize_not_idempotent :
  let s := [0x61; 0x358; 0x2E; 0x359]%N in
  let s_without_stop := [0x61; 0x358; 0x359]%N in
  normalize s = [0x61; 0x358; 0x359]%N
  ∧ normalize (normalize s) = [0x61; 0x359; 0x358]%N
  ∧ normalize s_without_stop = [0x61; 0x359; 0x358]%N
  ∧ normalize (normalize s) ≠ normalize s
  ∧ normalize s_without_stop ≠ normalize s.
Proof. vm_compute. repeat split; discriminate. Qed.

(** ** [mergeSkins] *)

Lemma mapM_gen_cons {A B} (f : A → Gen B) x l n :
  mapM f (x :: l) n
  = let (y, n1) := f x n in let (ys, n2) := mapM f l n1 in (y :: ys, n2).
Proof. reflexivity. Qed.

Lemma mapM_gen_length {A B} (f : A → Gen B) l n :
  length (mapM f l n).1 = length l.
Proof.
  revert n. induction l as [|x l IH]; intros n; [done|].
  rewrite mapM_gen_cons. destruct (f x n) as [y n1].
  specialize (IH n1). destruct (mapM f l n1) as [ys n2]. simpl in *. by rewrite IH.
Qed.

Lemma existingByName_fold (m : gmap jsstring Skin.t) skins key :
  foldl (λ m s, <[normalize (Skin.name s) := s]> m) m skins !! key
  = match lastNamed key skins with Some s => Some s | None => m !! key end.
Proof.
  unfold lastNamed. revert m.
  induction skins as [|s skins IH]; intros m; simpl; [done|].
  rewrite IH, filter_cons. case_decide as Hs.
  - rewrite last_cons. destruct (last _); [done|]. subst key. apply lookup_insert_eq.
  - destruct (last _); [done|]. by apply lookup_insert_ne.
Qed.

Lemma existingByName_lookup skins key :
  existingByName skins !! key = lastNamed key skins.
Proof.
  unfold existingByName. rewrite existingByName_fold.
  by destruct (lastNamed key skins).
Qed.

Lemma lastNamed_Some key skins s :
  lastNamed key skins = Some s → s ∈ skins ∧ normalize (Skin.name s) = key.
Proof.
  unfold lastNamed. intros Hs%last_Some_elem_of.
  apply list_elem_of_filter in Hs. tauto.
Qed.

Lemma lastNamed_own skins s :
  s ∈ skins → is_Some (lastNamed (normalize (Skin.name s)) skins).
Proof.
  intros Hs. unfold lastNamed. apply last_is_Some.
  intros Hnil.
  by apply (filter_nil_not_elem_of _ _ s Hnil).
Qed.

(** The second loop of [mergeSkins] never pushes: every existing skin is a
    key of [existingByName]. *)
Lemma mergeSkins_custom_nil skins (fetchedNames : list jsstring) :
  filter (λ s, ¬ is_Some (existingByName skins !! normalize (Skin.name s))
               ∧ ¬ Exists (λ n, normalize n = normalize (Skin.name s)) fetchedNames)
    skins = [].
Proof.
  assert (∀ l, l ⊆ skins →
    filter (λ s, ¬ is_Some (existingByName skins !! normalize (Skin.name s))
                 ∧ ¬ Exists (λ n, normalize n = normalize (Skin.name s)) fetchedNames)
      l = []) as Hsub; [|by apply Hsub].
  induction l as [|s l IH]; intros Hl; [done|].
  rewrite filter_cons_False.
  - apply IH. set_solver.
  - intros [Hno _]. apply Hno. rewrite existingByName_lookup.
    apply lastNamed_own. set_solver.
Qed.

Section merge.
Context `{UidSource}.

Lemma mergeSkins_unfold c fetchedNames n :
  mergeSkins c fetchedNames n
  = ((Champion.mk (Champion.id c) (Champion.name c)
        (mapM (reuseOrCreate (Champion.skins c)) fetchedNames n).1),
     (mapM (reuseOrCreate (Champion.skins c)) fetchedNames n).2).
Proof.
  unfold mergeSkins. rewrite mergeSkins_custom_nil.
  change (mapM _ fetchedNames) with (mapM (reuseOrCreate (Champion.skins c)) fetchedNames).
  unfold mbind, gen_bind.
  destruct (mapM (M:=Gen) _ fetchedNames n) as [merged n']. simpl.
  by rewrite app_nil_r.
Qed.

Lemma reuseOrCreate_eq skins name n :
  reuseOrCreate skins name n
  = match lastNamed (normalize name) skins with
    | Some existing => (existing, n)
    | None => (Skin.mk (uid_value n) name false, S n)
    end.
Proof.
  unfold reuseOrCreate. rewrite existingByName_lookup.
  by destruct (lastNamed _ _).
Qed.

Lemma merged_keys skins fetchedNames n :
  (λ s, normalize (Skin.name s)) <$> (mapM (reuseOrCreate skins) fetchedNames n).1
  = normalize <$> fetchedNames.
Proof.
  revert n. induction fetchedNames as [|name names IH]; intros n; [done|].
  rewrite mapM_gen_cons, reuseOrCreate_eq, (fmap_cons normalize).
  destruct (lastNamed _ _) as [s|] eqn:Hs.
  - rewrite <- (IH n). destruct (mapM (M:=Gen) _ names n) as [ys n2].
    cbn [fst]. rewrite fmap_cons.
    by apply lastNamed_Some in Hs as [_ ->].
  - rewrite <- (IH (S n)). destruct (mapM (M:=Gen) _ names (S n)) as [ys n2].
    cbn [fst]. by rewrite fmap_cons.
Qed.

Lemma merged_lookup skins fetchedNames n i name :
  fetchedNames !! i = Some name →
  (mapM (reuseOrCreate skins) fetchedNames n).1 !! i
  = Some (default (Skin.mk (uid_value (n + drawnBefore skins fetchedNames i)) name false)
            (lastNamed (normalize name) skins)).
Proof.
  unfold drawnBefore.
  revert n i. induction fetchedNames as [|name0 names IH]; intros n i Hi; [done|].
  rewrite mapM_gen_cons, reuseOrCreate_eq.
  destruct i as [|i].
  - injection Hi as ->. rewrite take_0, filter_nil, Nat.add_0_r.
    destruct (lastNamed _ _) as [s|]; by destruct (mapM (M:=Gen) _ names _).
  - rewrite lookup_cons in Hi. rewrite firstn_cons, filter_cons.
    destruct (lastNamed (normalize name0) skins) as [s|] eqn:Hs.
    + specialize (IH n i Hi). destruct (mapM (M:=Gen) _ names n) as [ys n2].
      cbn [fst] in *. rewrite lookup_cons, IH. by rewrite decide_False.
    + specialize (IH (S n) i Hi). destruct (mapM (M:=Gen) _ names (S n)) as [ys n2].
      cbn [fst] in *. rewrite lookup_cons, IH, decide_True by done.
      rewrite length_cons. do 4 f_equal. lia.
Qed.

Lemma merged_state skins fetchedNames n :
  (mapM (reuseOrCreate skins) fetchedNames n).2
  = n + drawnBefore skins fetchedNames (length fetchedNames).
Proof.
  unfold drawnBefore. rewrite firstn_all.
  revert n. induction fetchedNames as [|name names IH]; intros n.
  { cbn. lia. }
  rewrite mapM_gen_cons, reuseOrCreate_eq, filter_cons.
  destruct (lastNamed (normalize name) skins) as [s|] eqn:Hs.
  - specialize (IH n). destruct (mapM (M:=Gen) _ names n) as [ys n2].
    cbn [snd] in *. by rewrite decide_False.
  - specialize (IH (S n)). destruct (mapM (M:=Gen) _ names (S n)) as [ys n2].
    cbn [snd] in *. rewrite decide_True, length_cons by done. lia.
Qed.
End merge.

Lemma filter_unique_key {A} (g : A → jsstring) (l : list A) x :
  NoDup (g <$> l) → x ∈ l → filter (λ y, g y = g x) l = [x].
Proof.
  induction l as [|y l IH]; intros Hnd Hx; [by apply elem_of_nil in Hx|].
  rewrite fmap_cons in Hnd. apply NoDup_cons in Hnd as [Hy Hnd].
  assert (∀ z, z ∈ l → g z ≠ g y) as Hother.
  { intros z Hz Heq. apply Hy. rewrite <- Heq. apply list_elem_of_fmap. eauto. }
  apply elem_of_cons in Hx as [->|Hx].
  - rewrite filter_cons_True by done. f_equal.
    clear IH Hy Hnd. induction l as [|z l IH]; [done|].
    rewrite filter_cons_False; [apply IH|]; set_solver.
  - rewrite filter_cons_False; [by apply IH|]. intros Heq. by apply (Hother x).
Qed.

Lemma drawnBefore_lt skins (fetchedNames : list jsstring) j i name :
  j < i → fetchedNames !! j = Some name →
  lastNamed (normalize name) skins = None →
  drawnBefore skins fetchedNames j < drawnBefore skins fetchedNames i.
Proof.
  unfold drawnBefore. revert j i.
  induction fetchedNames as [|a names IH]; intros j i Hji Hj Hnone; [done|].
  destruct i as [|i]; [lia|]. rewrite firstn_cons.
  destruct j as [|j].
  - injection Hj as ->. rewrite filter_cons_True, take_0, filter_nil by done.
    rewrite length_cons. cbn. lia.
  - rewrite lookup_cons in Hj. rewrite firstn_cons, !filter_cons.
    pose proof (IH j i ltac:(lia) Hj Hnone) as IH'.
    case_decide; rewrite ?length_cons; lia.
Qed.

Section merge_claims.
Context `{UidSource}.

Lemma mapM_reuse_all skins (fetchedNames : list jsstring) l n :
  length l = length fetchedNames →
  (∀ i name, fetchedNames !! i = Some name →
             lastNamed (normalize name) skins = l !! i) →
  mapM (reuseOrCreate skins) fetchedNames n = (l, n).
Proof.
  revert l. induction fetchedNames as [|name names IH]; intros l Hlen Hall.
  - by destruct l.
  - destruct l as [|s l]; [done|].
    rewrite mapM_gen_cons, reuseOrCreate_eq, (Hall 0 name eq_refl). simpl.
    rewrite (IH l); [done|by injection Hlen|].
    intros i name' Hi. apply (Hall (S i) name' Hi).
Qed.

(** C1: an existing skin whose normalized name matches no fetched name is
    absent from the result of [mergeSkins]: the loop that is meant to keep
    custom skins never pushes, so the result has exactly one skin per
    fetched name. *)
Theorem mergeSkins_drops_custom c fetchedNames n s :
  s ∈ Champion.skins c →
  normalize (Skin.name s) ∉ (normalize <$> fetchedNames) →
  (s ∉ Champion.skins (mergeSkins c fetchedNames n).1)
  ∧ length (Champion.skins (mergeSkins c fetchedNames n).1) = length fetchedNames.
Proof.
  intros Hs Hcustom. rewrite mergeSkins_unfold. simpl. split.
  - intros Hin. apply Hcustom. rewrite <- (merged_keys (Champion.skins c) _ n).
    apply list_elem_of_fmap. eauto.
  - apply mapM_gen_length.
Qed.


(** C3, amended: when the fetched names have pairwise distinct normalized
    names, merging a second time with the same names returns the champion
    unchanged (same skins, ids and checked flags) and draws no identifier. *)
Theorem mergeSkins_idempotent_distinct c fetchedNames n :
  NoDup (normalize <$> fetchedNames) →
  mergeSkins (mergeSkins c fetchedNames n).1 fetchedNames
    (mergeSkins c fetchedNames n).2
  = mergeSkins c fetchedNames n.
Proof.
  intros Hnd. rewrite (mergeSkins_unfold c). simpl.
  pose proof (merged_keys (Champion.skins c) fetchedNames n) as Hkeys.
  pose proof (mapM_gen_length (reuseOrCreate (Champion.skins c)) fetchedNames n) as Hlen.
  destruct (mapM (M:=Gen) _ fetchedNames n) as [merged n']. simpl in *.
  rewrite mergeSkins_unfold. simpl.
  rewrite (mapM_reuse_all merged fetchedNames merged n'); [done|done|].
  intros i name Hi.
  assert (is_Some (merged !! i)) as [s Hs].
  { apply lookup_lt_is_Some. rewrite Hlen. by eapply lookup_lt_Some. }
  assert (normalize (Skin.name s) = normalize name) as Hkey.
  { apply (f_equal (.!! i)) in Hkeys. rewrite !list_lookup_fmap, Hs, Hi in Hkeys.
    by injection Hkeys. }
  rewrite Hs, <- Hkey. unfold lastNamed.
  rewrite (filter_unique_key (λ s, normalize (Skin.name s))); [done| |].
  - by rewrite Hkeys.
  - by eapply list_elem_of_lookup_2.
Qed.

(** What [mergeSkins] places at the position of each fetched name: the
    last existing skin whose normalized name equals that of the fetched
    name, unchanged; when there is none, a new skin with that name,
    [checked = false] and the identifier of the next call of [uid()]. *)
Theorem mergeSkins_positions c fetchedNames n i name :
  fetchedNames !! i = Some name →
  let existing := lastNamed (normalize name) (Champion.skins c) in
  let k := n + drawnBefore (Champion.skins c) fetchedNames i in
  Champion.skins (mergeSkins c fetchedNames n).1 !! i
    = Some (default (Skin.mk (uid_value k) name false) existing)
  ∧ (existing = None →
     n ≤ k < (mergeSkins c fetchedNames n).2
     ∧ ∀ j name', j < i → fetchedNames !! j = Some name' →
         lastNamed (normalize name') (Champion.skins c) = None →
         n + drawnBefore (Champion.skins c) fetchedNames j < k).
Proof.
  intros Hi existing k. rewrite mergeSkins_unfold. simpl. split.
  - by apply merged_lookup.
  - intros Hnone. rewrite merged_state. subst k. split; [split; [lia|]|].
    + apply Nat.add_lt_mono_l, (drawnBefore_lt _ _ _ _ name); [|done..].
      by eapply lookup_lt_Some.
    + intros j name' Hj Hname' Hnone'.
      by apply Nat.add_lt_mono_l, (drawnBefore_lt _ _ _ _ name').
Qed.
Lemma lastNamed_shadowing key pre s mid post :
  normalize (Skin.name s) = key →
  Forall (λ s', normalize (Skin.name s') ≠ key) post →
  lastNamed key (pre ++ mid ++ s :: post) = Some s.
Proof.
  intros Hs Hpost. unfold lastNamed.
  rewrite !filter_app, filter_cons_True by done.
  replace (filter _ post) with (@nil Skin.t).
  - by rewrite !app_assoc, last_snoc.
  - symmetry. induction Hpost as [|s' post Hs' _ IH]; [done|].
    by rewrite filter_cons_False.
Qed.

(** C4: [mergeSkins] does not keep every checked state.  [existingByName]
    holds one skin per normalized name, the last one: when a checked skin
    is followed by an unchecked skin with the same normalized name, at the
    position of a fetched name with that normalized name the result holds
    the unchecked skin, and the checked skin is nowhere in the result. *)
Theorem mergeSkins_loses_shadowed_check c fetchedNames n i name pre s1 mid s2 post :
  Champion.skins c = pre ++ s1 :: mid ++ s2 :: post →
  normalize (Skin.name s1) = normalize name →
  normalize (Skin.name s2) = normalize name →
  Forall (λ s, normalize (Skin.name s) ≠ normalize name) post →
  Skin.checked s1 = true →
  Skin.checked s2 = false →
  fetchedNames !! i = Some name →
  Champion.skins (mergeSkins c fetchedNames n).1 !! i = Some s2
  ∧ s1 ∉ Champion.skins (mergeSkins c fetchedNames n).1.
Proof.
  intros Hskins Hs1 Hs2 Hpost Hc1 Hc2 Hi.
  assert (lastNamed (normalize name) (Champion.skins c) = Some s2) as Hlast.
  { rewrite Hskins.
    by apply (lastNamed_shadowing (normalize name) pre s2 (s1 :: mid) post). }
  rewrite mergeSkins_unfold. cbn [fst Champion.skins]. split.
  - by rewrite (merged_lookup _ _ _ _ name Hi), Hlast.
  - intros Hin. apply list_elem_of_lookup in Hin as [j Hj].
    assert (is_Some (fetchedNames !! j)) as [name' Hname'].
    { apply lookup_lt_is_Some.
      rewrite <- (mapM_gen_length (reuseOrCreate (Champion.skins c)) fetchedNames n).
      by eapply lookup_lt_Some. }
    rewrite (merged_lookup _ _ _ _ name' Hname') in Hj.
    destruct (lastNamed (normalize name') (Champion.skins c)) as [s|] eqn:Hs;
      cbn [default] in Hj; injection Hj as Hj.
    + subst s. apply lastNamed_Some in Hs as Hkey. destruct Hkey as [_ Hkey].
      rewrite <- Hkey, Hs1, Hlast in Hs. injection Hs as ->. congruence.
    + rewrite <- Hj in Hc1. discriminate.
Qed.
End merge_claims.

Lemma mergeSkins_drops_custom_witness :
  let c := ahri [skin "s1" "My Custom Skin" true] in
  mergeSkins (H:=sample_uid) c [str "Foxfire"] 0
    = (ahri [Skin.mk (str "uid-" ++ [0%N]) (str "Foxfire") false], 1)
  ∧ skin "s1" "My Custom Skin" true
      ∉ Champion.skins (mergeSkins (H:=sample_uid) c [str "Foxfire"] 0).1.
Proof.
  split; [by vm_compute|].
  apply (mergeSkins_drops_custom (ahri [skin "s1" "My Custom Skin" true])
           [str "Foxfire"] 0).
  - apply list_elem_of_singleton. reflexivity.
  - apply (bool_decide_unpack _). vm_compute. exact I.
Defined.



Lemma mergeSkins_not_idempotent :
  let r := mergeSkins (H:=sample_uid) (ahri []) [str "Foxfire"; str "Fox fire"] 0 in
  (λ s, (Skin.id s, Skin.checked s))
    <$> Champion.skins (mergeSkins (H:=sample_uid) r.1 [str "Foxfire"; str "Fox fire"] r.2).1
  ≠ (λ s, (Skin.id s, Skin.checked s)) <$> Champion.skins r.1.
Proof. vm_compute. discriminate. Qed.

Lemma mergeSkins_idempotent_distinct_witness :
  let f := [str "Foxfire"; str "Midnight"] in
  let r := mergeSkins (H:=sample_uid) (ahri [skin "s1" "Foxfire" true]) f 0 in
  mergeSkins (H:=sample_uid) r.1 f r.2 = r.
Proof.
  apply mergeSkins_idempotent_distinct.
  apply (bool_decide_unpack _). vm_compute. exact I.
Defined.

Lemma mergeSkins_loses_shadowed_check_witness :
  let s1 := skin "s1" "Foxfire" true in
  let s2 := skin "s2" "Fox fire" false in
  let c := ahri [s1; s2] in
  Champion.skins (mergeSkins (H:=sample_uid) c [str "Foxfire"] 0).1 !! 0 = Some s2
  ∧ s1 ∉ Champion.skins (mergeSkins (H:=sample_uid) c [str "Foxfire"] 0).1.
Proof.
  apply (mergeSkins_loses_shadowed_check (H:=sample_uid)
           (ahri [skin "s1" "Foxfire" true; skin "s2" "Fox fire" false])
           [str "Foxfire"] 0 0 (str "Foxfire")
           [] (skin "s1" "Foxfire" true) [] (skin "s2" "Fox fire" false) []).
  - reflexivity.
  - by vm_compute.
  - by vm_compute.
  - constructor.
  - reflexivity.
  - reflexivity.
  - reflexivity.
Defined.

(** On the same input, by computation: no skin of the result is checked. *)
Lemma mergeSkins_shadowed_checked_skin :
  let s1 := skin "s1" "Foxfire" true in
  let c := ahri [s1; skin "s2" "Fox fire" false] in
  s1 ∈ Champion.skins c
  ∧ Skin.checked s1 = true
  ∧ normalize (Skin.name s1) = normalize (str "Foxfire")
  ∧ Champion.skins (mergeSkins (H:=sample_uid) c [str "Foxfire"] 0).1 !! 0 ≠ Some s1
  ∧ Forall (λ s, Skin.checked s = false)
      (Champion.skins (mergeSkins (H:=sample_uid) c [str "Foxfire"] 0).1).
Proof.
  split; [apply list_elem_of_here|].
  split; [done|]. split; [by vm_compute|].
  split; [vm_compute; discriminate|].
  vm_compute. by repeat constructor.
Qed.

Lemma mergeSkins_positions_witness :
  let c := ahri [skin "s1" "Foxfire" true] in
  let f := [str "Foxfire"; str "Midnight"] in
  Champion.skins (mergeSkins (H:=sample_uid) c f 0).1 !! 0
    = Some (skin "s1" "Foxfire" true)
  ∧ Champion.skins (mergeSkins (H:=sample_uid) c f 0).1 !! 1
    = Some (Skin.mk (str "uid-" ++ [0%N]) (str "Midnight") false).
Proof.
  split.
  - exact (proj1 (mergeSkins_positions (H:=sample_uid)
             (ahri [skin "s1" "Foxfire" true]) [str "Foxfire"; str "Midnight"]
             0 0 (str "Foxfire") eq_refl)).
  - exact (proj1 (mergeSkins_positions (H:=sample_uid)
             (ahri [skin "s1" "Foxfire" true]) [str "Foxfire"; str "Midnight"]
             0 1 (str "Midnight") eq_refl)).
Defined.

(** ** Code that may throw *)

Lemma mapM_js_cons {A B} (f : A → Js B) x l n :
  mapM f (x :: l) n
  = match f x n with
    | (Some y, n1) =>
        match mapM f l n1 with
        | (Some ys, n2) => (Some (y :: ys), n2)
        | (None, n2) => (None, n2)
        end
    | (None, n1) => (None, n1)
    end.
Proof.
  change (mapM f (x :: l) n) with
    ((f x ≫= λ y, mapM f l ≫= λ ys, mret (y :: ys)) n).
  unfold mbind, js_bind. destruct (f x n) as [[y|] n1]; [|done].
  by destruct (mapM f l n1) as [[ys|] n2].
Qed.

Lemma js_bind_Some {A B} (f : A → Js B) (m : Js A) n a n' :
  m n = (Some a, n') → (m ≫= f) n = f a n'.
Proof. unfold mbind, js_bind. by intros ->. Qed.

Lemma js_bind_None {A B} (f : A → Js B) (m : Js A) n n' :
  m n = (None, n') → (m ≫= f) n = (None, n').
Proof. unfold mbind, js_bind. by intros ->. Qed.

Lemma mapM_js_pure {A B} (f : A → Js B) (g : A → B) l n :
  (∀ x m, x ∈ l → f x m = (Some (g x), m)) →
  mapM f l n = (Some (g <$> l), n).
Proof.
  induction l as [|x l IH]; intros Hf; [done|].
  rewrite mapM_js_cons, Hf, IH; [done| |]; set_solver.
Qed.

Lemma mapM_js_Forall2 {A B} (f : A → Js B) l n ys n' :
  mapM f l n = (Some ys, n') →
  Forall2 (λ x y, ∃ m m', f x m = (Some y, m')) l ys.
Proof.
  revert n ys n'. induction l as [|x l IH]; intros n ys n'.
  - intros [= <- _]. constructor.
  - rewrite mapM_js_cons. destruct (f x n) as [[y|] n1] eqn:Hx; [|done].
    destruct (mapM f l n1) as [[ys'|] n2] eqn:Hl; [|done].
    intros [= <- _]. constructor; eauto.
Qed.

Lemma mapM_js_total {A B} (f : A → Js B) l n :
  (∀ x m, x ∈ l → is_Some (f x m).1) → is_Some (mapM f l n).1.
Proof.
  revert n. induction l as [|x l IH]; intros n Hf; [by eexists|].
  rewrite mapM_js_cons.
  destruct (Hf x n) as [y Hy]; [set_solver|].
  destruct (f x n) as [[y'|] n1]; [|done].
  destruct (IH n1) as [ys Hys]; [set_solver|].
  destruct (mapM f l n1) as [[ys'|] n2]; [|done]. by eexists.
Qed.

Lemma prop_readable v k n :
  readable v → prop v k n = (Some (entityProp k v), n).
Proof. intros [??]. by destruct v. Qed.

(** ** [loadInitialChampions] *)

Lemma indexByName_readable byName elems n :
  Forall readable elems →
  ∃ byName', indexByName byName elems n = (Some byName', n)
    ∧ ∀ name, byName' !! name
        = match lastEntityNamed name elems with
          | Some c => Some c
          | None => byName !! name
          end.
Proof.
  unfold lastEntityNamed. intros Helems. revert byName.
  induction Helems as [|c elems Hc _ IH]; intros byName; [by eexists|].
  simpl. unfold mbind, js_bind. rewrite prop_readable by done.
  edestruct IH as (byName' & -> & Hlookup). exists byName'. split; [done|].
  intros name. rewrite Hlookup, filter_cons.
  destruct (decide (isNamed name c = true)) as [Hn|Hn].
  - rewrite last_cons. destruct (last _) as [c'|]; [done|].
    unfold isNamed in Hn.
    destruct (entityProp (str "name") c) as [| | | |k| |]; try done.
    apply bool_decide_eq_true in Hn as ->. apply lookup_insert_eq.
  - destruct (last _) as [c'|]; [done|].
    unfold isNamed in Hn.
    destruct (entityProp (str "name") c) as [| | | |k| |]; try done.
    apply lookup_insert_ne. intros ->. apply Hn. by apply bool_decide_eq_true.
Qed.

Lemma customChampions_readable elems n :
  Forall readable elems →
  customChampions elems n
  = (Some (filter (λ c, isCanonicalName (entityProp (str "name") c) = false) elems), n).
Proof.
  induction 1 as [|c elems Hc _ IH]; [done|].
  simpl. unfold mbind, js_bind. rewrite prop_readable, IH by done.
  rewrite filter_cons. simpl.
  destruct (isCanonicalName _); by simpl.
Qed.

Lemma names_distinct : NoDup CHAMPION_NAMES.
Proof. apply (bool_decide_unpack _). vm_compute. exact I. Qed.

Lemma lastEntityNamed_Some name elems c :
  lastEntityNamed name elems = Some c → c ∈ elems ∧ isNamed name c = true.
Proof.
  unfold lastEntityNamed. intros Hc%last_Some_elem_of.
  apply list_elem_of_filter in Hc. tauto.
Qed.

Lemma isNamed_object name c :
  isNamed name c = true →
  entityProp (str "name") c = VString name ∧ truthy c = true.
Proof.
  unfold isNamed. destruct c; try done. simpl.
  destruct (own_prop _ _); try done. by intros ->%bool_decide_eq_true.
Qed.

Section load.
Context `{UidSource}.

Lemma shapeSkin_readable s n :
  readable s →
  ∃ i n', shapeSkin s n
          = (Some (skinObject i (entityProp (str "name") s)
                     (VBool (truthy (entityProp (str "checked") s)))), n').
Proof.
  intros Hs. unfold shapeSkin, mbind, js_bind.
  rewrite prop_readable by done.
  destruct (truthy (entityProp (str "id") s)); simpl;
    rewrite !prop_readable by done; eauto.
Qed.

Lemma shapeSkins_readable items n :
  Forall readable items → is_Some (mapM shapeSkin items n).1.
Proof.
  intros Hitems. apply mapM_js_total. intros s m Hs.
  rewrite Forall_forall in Hitems.
  destruct (shapeSkin_readable s m) as (i & n' & ->); [by apply Hitems|].
  by eexists.
Qed.

Lemma mergeCanonical_fresh name n :
  mergeCanonical ∅ name n = (Some (freshChampion name), n).
Proof. unfold mergeCanonical. by rewrite lookup_empty. Qed.

Lemma mergeCanonical_wellShaped elems byName name n :
  wellShaped elems →
  (∀ name, byName !! name = lastEntityNamed name elems) →
  ∃ o n', mergeCanonical byName name n = (Some o, n')
          ∧ entityProp (str "name") o = VString name.
Proof.
  intros Helems HbyName. unfold mergeCanonical. rewrite HbyName.
  destruct (lastEntityNamed name elems) as [existing|] eqn:Hex; [|by eexists _, _].
  apply lastEntityNamed_Some in Hex as [Hin Hname].
  apply isNamed_object in Hname as [Hname ->].
  unfold wellShaped in Helems. rewrite Forall_forall in Helems.
  destruct (Helems _ Hin) as [Hread Hskins].
  unfold mbind, js_bind. rewrite !prop_readable by done. rewrite Hname.
  destruct (entityProp (str "skins") existing) as [| | | | |items|];
    try by eexists _, _.
  destruct (shapeSkins_readable items n Hskins) as [sk Hsk].
  destruct (mapM shapeSkin items n) as [[sk'|] n']; [|done].
  by eexists _, _.
Qed.

Lemma canonical_wellShaped elems byName names n :
  wellShaped elems →
  (∀ name, byName !! name = lastEntityNamed name elems) →
  ∃ canonical n', mapM (mergeCanonical byName) names n = (Some canonical, n')
    ∧ entityProp (str "name") <$> canonical = VString <$> names.
Proof.
  intros Helems HbyName. revert n.
  induction names as [|name names IH]; intros n; [by eexists [], _|].
  rewrite mapM_js_cons.
  destruct (mergeCanonical_wellShaped elems byName name n) as (o & n1 & -> & Ho);
    [done..|].
  destruct (IH n1) as (canonical & n2 & -> & Hnames).
  eexists (o :: canonical), _. split; [done|]. by rewrite !fmap_cons, Ho, Hnames.
Qed.

(** C6: when no document is stored, or the stored text is not JSON,
    [loadInitialChampions] returns one entity per canonical name, in the
    order of [CHAMPION_NAMES] (which lists no name twice), each with the
    id ["champ_" + normalize(name)] and no skin; it returns a list in every
    case and draws no identifier here. *)
Theorem loadInitialChampions_fresh n :
  let fresh :=
    (λ name, championObject (VString (str "champ_" ++ normalize name))
               (VString name) (VArray [])) <$> CHAMPION_NAMES in
  loadInitialChampions NoItem n = (fresh, n)
  ∧ loadInitialChampions NotJson n = (fresh, n)
  ∧ NoDup CHAMPION_NAMES.
Proof.
  split; [|split; [done|apply names_distinct]].
  unfold loadInitialChampions, try_catch, loadStored, mbind, js_bind.
  cbn -[mapM CHAMPION_NAMES mergeCanonical str].
  by rewrite (mapM_js_pure _ freshChampion)
    by (intros; apply mergeCanonical_fresh).
Qed.

(** C5: [loadInitialChampions] does not bring custom champions into shape.
    For a stored array whose elements and skins can be read it returns one
    entity per canonical name, in canonical order, followed by the stored
    elements whose name is not a canonical name, in their stored order and
    exactly as stored: [merged.push(c)] pushes the parsed element itself,
    where the branch for canonical names rebuilds each skin with
    [s.id || uid()] and [!!s.checked].  A custom skin stored without an id
    or with a [checked] that is not a boolean is returned as it is. *)
Theorem loadInitialChampions_keeps_custom elems n :
  wellShaped elems →
  ∃ canonical n',
    loadInitialChampions (Json (VArray elems)) n
    = (canonical
         ++ filter (λ c, isCanonicalName (entityProp (str "name") c) = false) elems,
       n')
    ∧ entityProp (str "name") <$> canonical = VString <$> CHAMPION_NAMES.
Proof.
  intros Helems.
  assert (Forall readable elems) as Hread.
  { eapply Forall_impl; [exact Helems|]. by intros c [? _]. }
  destruct (indexByName_readable ∅ elems n Hread) as (byName & Hidx & HbyName).
  assert (∀ name, byName !! name = lastEntityNamed name elems) as Hlookup.
  { intros name. rewrite HbyName, lookup_empty. by destruct (lastEntityNamed _ _). }
  destruct (canonical_wellShaped elems byName CHAMPION_NAMES n Helems Hlookup)
    as (canonical & n' & Hcanon & Hnames).
  exists canonical, n'. split; [|done].
  unfold loadInitialChampions, try_catch, loadStored.
  rewrite (js_bind_Some _ (mret (VArray elems)) n _ _ eq_refl).
  cbn [truthy].
  rewrite (js_bind_Some _ (iterate (VArray elems) ≫= indexByName ∅) _ _ _ Hidx).
  rewrite (js_bind_Some _ _ _ _ _ Hcanon).
  rewrite (js_bind_Some _ (iterate (VArray elems)) n' _ _ eq_refl).
  by rewrite (js_bind_Some _ _ _ _ _ (customChampions_readable elems n' Hread)).
Qed.
End load.

Lemma loadInitialChampions_keeps_custom_witness :
  let item := VObject [(str "name", VString (str "Prototype"));
                       (str "checked", VNumber 1)] in
  let custom := VObject [(str "name", VString (str "CustomChamp"));
                         (str "skins", VArray [item])] in
  ∃ canonical n',
    loadInitialChampions (H:=sample_uid) (Json (VArray [custom; freshChampion (str "Ahri")])) 0
    = (canonical ++ [custom], n')
    ∧ entityProp (str "name") <$> canonical = VString <$> CHAMPION_NAMES.
Proof.
  apply (loadInitialChampions_keeps_custom (H:=sample_uid)
           [VObject [(str "name", VString (str "CustomChamp"));
                     (str "skins", VArray [VObject [
                        (str "name", VString (str "Prototype"));
                        (str "checked", VNumber 1)]])];
            freshChampion (str "Ahri")] 0).
  repeat constructor; discriminate.
Defined.

(** The same custom champion by computation: its skin comes back with no
    [id] and with [checked] the number 1, where the coercion of the
    canonical branch would give it a drawn id and [checked = true]. *)
Lemma loadInitialChampions_custom_not_coerced :
  let item := VObject [(str "name", VString (str "Prototype"));
                       (str "checked", VNumber 1)] in
  let custom := VObject [(str "name", VString (str "CustomChamp"));
                         (str "skins", VArray [item])] in
  last (loadInitialChampions (H:=sample_uid) (Json (VArray [custom])) 0).1
    = Some custom
  ∧ entityProp (str "id") item = VUndefined
  ∧ entityProp (str "checked") item = VNumber 1
  ∧ (shapeSkin (H:=sample_uid) item 0).1
    = Some (skinObject (VString (str "uid-" ++ [0%N])) (VString (str "Prototype"))
              (VBool true)).
Proof. by vm_compute. Qed.

(** ** [addSkin] *)

Lemma updateChampion_lookup (g : nat → Champion.t → Champion.t) id
    (updater : Champion.t → Gen Champion.t) prev n i c :
  (∀ c m, updater c m = (g m c, S m)) →
  prev !! i = Some c →
  (updateChampion id updater prev n).1 !! i
  = Some (if bool_decide (Champion.id c = id)
          then g (n + updatedBefore id prev i) c else c).
Proof.
  intros Hupd. unfold updateChampion, updatedBefore.
  set (f := λ c, if bool_decide (Champion.id c = id) then updater c else mret c).
  revert n i c. induction prev as [|c0 prev IH]; intros n i c Hi; [done|].
  rewrite mapM_gen_cons.
  destruct i as [|i].
  - injection Hi as ->. rewrite take_0, filter_nil, Nat.add_0_r. unfold f at 1.
    destruct (bool_decide (Champion.id c = id)).
    + rewrite Hupd. by destruct (mapM f prev (S n)).
    + cbn [mret gen_ret]. by destruct (mapM f prev n).
  - rewrite lookup_cons in Hi. rewrite firstn_cons, filter_cons. unfold f at 1.
    destruct (decide (Champion.id c0 = id)) as [Hid|Hid].
    + rewrite (bool_decide_eq_true_2 _ Hid), Hupd.
      specialize (IH (S n) i c Hi). destruct (mapM f prev (S n)) as [ys n2].
      cbn [fst] in *. rewrite lookup_cons, IH, length_cons.
      by rewrite Nat.add_succ_r.
    + rewrite (bool_decide_eq_false_2 _ Hid).
      specialize (IH n i c Hi). cbn [mret gen_ret].
      destruct (mapM f prev n) as [ys n2].
      cbn [fst] in *. by rewrite lookup_cons, IH.
Qed.

Section addSkin.
Context `{UidSource}.

(** C8, amended: for every name whose trimmed form is not empty, [addSkin]
    leaves the number and order of the champions unchanged, returns every
    champion with another id as it was, and returns a champion with the
    given id with its skins followed by exactly one new skin, named by the
    trimmed input, with [checked = false] and a newly drawn identifier. *)
Theorem addSkin_appends championId name prev n :
  trim name ≠ [] →
  length (addSkin championId name prev n).1 = length prev
  ∧ ∀ i c, prev !! i = Some c →
      (addSkin championId name prev n).1 !! i
      = Some (if bool_decide (Champion.id c = championId)
              then Champion.mk (Champion.id c) (Champion.name c)
                     (Champion.skins c
                        ++ [Skin.mk (uid_value (n + updatedBefore championId prev i))
                              (trim name) false])
              else c).
Proof.
  intros Hname. unfold addSkin. rewrite bool_decide_eq_false_2 by done. split.
  - apply mapM_gen_length.
  - intros i c Hi.
    by apply (updateChampion_lookup
                (λ k c, Champion.mk (Champion.id c) (Champion.name c)
                          (Champion.skins c ++ [Skin.mk (uid_value k) (trim name) false]))).
Qed.
End addSkin.

Lemma addSkin_appends_witness :
  let prev := [ahri [skin "s1" "Foxfire" true];
               Champion.mk (str "champ_zed") (str "Zed") []] in
  (addSkin (H:=sample_uid) (str "champ_ahri") (str "  Midnight ") prev 0).1
  = [ahri [skin "s1" "Foxfire" true;
           Skin.mk (str "uid-" ++ [0%N]) (str "Midnight") false];
     Champion.mk (str "champ_zed") (str "Zed") []].
Proof.
  destruct (addSkin_appends (H:=sample_uid) (str "champ_ahri") (str "  Midnight ")
              [ahri [skin "s1" "Foxfire" true];
               Champion.mk (str "champ_zed") (str "Zed") []] 0) as [Hlen Hat];
    [by vm_compute|].
  apply list_eq. intros [|[|i]].
  - exact (Hat 0 _ eq_refl).
  - exact (Hat 1 _ eq_refl).
  - by vm_compute.
Defined.

Lemma addSkin_blank_name :
  let prev := [ahri []] in
  str " " ≠ [] ∧ addSkin (H:=sample_uid) (str "champ_ahri") (str " ") prev 0 = (prev, 0).
Proof. by vm_compute. Qed.

(** ** [prefillChampion] *)

Lemma fetchChampionSkins_failure fetch version locale key :
  match fetch (championUrl version locale key) with
  | Rejected => True
  | Responded ok body =>
      ok = false ∨ body = None
      ∨ ∃ data, body = Some data ∧ DDragonChampionDetail.data data !! key = None
  end →
  fetchChampionSkins fetch version locale key = [].
Proof.
  unfold fetchChampionSkins.
  destruct (fetch _) as [|ok body]; [done|].
  intros [->|[->|(data & -> & Hkey)]]; [done|by destruct ok|].
  rewrite Hkey. by destruct ok.
Qed.

(** C9: [fetchChampionSkins] returns the empty list when the request is
    rejected, the status is not OK, the body cannot be read, or the body
    has no entry for the key; and whenever the fetch made by
    [prefillChampion] returns the empty list, the champions are returned
    unchanged and no identifier is drawn, whereas [mergeSkins] with an empty
    list would have removed every skin. *)
Theorem prefillChampion_empty_fetch `{UidSource} fetch ddVersion ddKeyMap c prev n :
  (∀ version keyMap key,
     ddVersion = Some version → ddKeyMap = Some keyMap →
     keyMap !! normalize (Champion.name c) = Some key →
     fetchChampionSkins fetch version DDRAGON_LOCALE key = []) →
  prefillChampion fetch ddVersion ddKeyMap c prev n = (prev, n)
  ∧ Champion.skins (mergeSkins c [] n).1 = []
  ∧ (∀ version locale key,
       match fetch (championUrl version locale key) with
       | Rejected => True
       | Responded ok body =>
           ok = false ∨ body = None
           ∨ ∃ data, body = Some data ∧ DDragonChampionDetail.data data !! key = None
       end →
       fetchChampionSkins fetch version locale key = []).
Proof.
  intros Hempty. split; [|split].
  - unfold prefillChampion.
    destruct ddVersion as [version|], ddKeyMap as [keyMap|]; try done.
    case_bool_decide; [done|].
    destruct (keyMap !! _) as [key|] eqn:Hkey; [|done].
    case_bool_decide; [done|].
    by rewrite (Hempty version keyMap key).
  - by rewrite mergeSkins_unfold.
  - intros version locale key. apply fetchChampionSkins_failure.
Qed.

Lemma prefillChampion_empty_fetch_witness :
  let c := ahri [skin "s1" "My Custom Skin" true] in
  prefillChampion (H:=sample_uid) (λ _, Responded false None)
    (Some (str "15.1.1")) (Some {[str "ahri" := str "Ahri"]}) c [c] 0
  = ([c], 0).
Proof.
  refine (proj1 (prefillChampion_empty_fetch (H:=sample_uid) (λ _, Responded false None)
            (Some (str "15.1.1")) (Some {[str "ahri" := str "Ahri"]})
            (ahri [skin "s1" "My Custom Skin" true])
            [ahri [skin "s1" "My Custom Skin" true]] 0 _)).
  intros version keyMap key _ _ _. reflexivity.
Defined.

(** ** [importJson] *)

Lemma indexByName_Some byName elems n byName' n' :
  indexByName byName elems n = (Some byName', n') → Forall readable elems.
Proof.
  revert byName. induction elems as [|c elems IH]; intros byName; [by constructor|].
  simpl. unfold mbind, js_bind.
  destruct c; try done; simpl; intros Hrest%IH; by repeat constructor.
Qed.

Lemma isNamed_readable name c : isNamed name c = true → readable c.
Proof. by destruct c. Qed.

Section import.
Context `{UidSource}.

Lemma importChampion_spec elems byName c m o m' :
  (∀ name, byName !! name = lastEntityNamed name elems) →
  importChampion byName c m = (Some o, m') →
  importedAs c (lastEntityNamed (Champion.name c) elems) o.
Proof.
  intros HbyName. unfold importChampion, importedAs. rewrite HbyName.
  destruct (lastEntityNamed _ elems) as [incoming|] eqn:Hin;
    [|intros [= <- _]; by eexists].
  apply lastEntityNamed_Some in Hin as [_ Hnamed].
  pose proof (isNamed_readable _ _ Hnamed) as Hread.
  apply isNamed_object in Hnamed as [_ ->].
  rewrite (js_bind_Some _ _ _ _ _ (prop_readable incoming (str "skins") m Hread)).
  destruct (entityProp (str "skins") incoming) as [| | | | |items|];
    try (intros [= <- _]; by eexists).
  destruct (mapM shapeSkin items m) as [[items'|] m1] eqn:Hitems.
  - rewrite (js_bind_Some _ _ m (VArray items') m1)
      by (by rewrite (js_bind_Some _ _ _ _ _ Hitems)).
    intros [= <- _]. eexists. split; [done|]. exists items'. split; [done|].
    by eapply mapM_js_Forall2.
  - rewrite (js_bind_None _ _ m m1); [done|].
    by rewrite (js_bind_None _ _ _ _ Hitems).
Qed.

Lemma importChampion_wellShaped elems byName c m :
  wellShaped elems →
  (∀ name, byName !! name = lastEntityNamed name elems) →
  is_Some (importChampion byName c m).1.
Proof.
  intros Helems HbyName. unfold importChampion. rewrite HbyName.
  destruct (lastEntityNamed _ elems) as [incoming|] eqn:Hin; [|by eexists].
  apply lastEntityNamed_Some in Hin as [Hin [_ ->]%isNamed_object].
  unfold wellShaped in Helems. rewrite Forall_forall in Helems.
  destruct (Helems _ Hin) as [Hread Hskins].
  rewrite (js_bind_Some _ _ _ _ _ (prop_readable incoming (str "skins") m Hread)).
  destruct (entityProp (str "skins") incoming) as [| | | | |items|];
    try by eexists.
  destruct (shapeSkins_readable items m Hskins) as [sk Hsk].
  destruct (mapM shapeSkin items m) as [[sk'|] m1] eqn:Hitems; [|done].
  rewrite (js_bind_Some _ _ m (VArray sk') m1)
    by (by rewrite (js_bind_Some _ _ _ _ _ Hitems)).
  by eexists.
Qed.

(** C10: whenever [importJson] updates the state, the champions keep their
    number and order, and the object put in the place of a current
    champion has that champion's id and name; its skins are those of the
    current champion when the document has no entry with that name or
    when the entry's [skins] is not an array, and otherwise the coerced
    skins of the last entry with that name.  The update takes place for
    every array whose elements and skins can be read. *)
Theorem importJson_keeps_identity prev n :
  (∀ file champions n',
     importJson file prev n = (Updated champions, n') →
     ∃ elems, file = FileJson (VArray elems)
       ∧ Forall2 (λ c o, importedAs c (lastEntityNamed (Champion.name c) elems) o)
           prev champions)
  ∧ (∀ elems, wellShaped elems →
       ∃ champions n',
         importJson (FileJson (VArray elems)) prev n = (Updated champions, n')).
Proof.
  split.
  - intros file champions n'. unfold importJson.
    destruct file as [| |data]; try done.
    destruct data as [| | | | |elems|]; try done.
    destruct (indexByName ∅ elems n) as [[byName|] n1] eqn:Hidx; [|done].
    destruct (mapM (importChampion byName) prev n1) as [[out|] n2] eqn:Hout; [|done].
    intros [= <- _]. exists elems. split; [done|].
    pose proof (indexByName_Some _ _ _ _ _ Hidx) as Hread.
    destruct (indexByName_readable ∅ elems n Hread) as (byName' & Hidx' & HbyName).
    rewrite Hidx in Hidx'. injection Hidx' as <-.
    apply mapM_js_Forall2 in Hout.
    eapply Forall2_impl; [exact Hout|].
    intros c o (m & m' & Hco). eapply importChampion_spec; [|exact Hco].
    intros name. rewrite HbyName, lookup_empty. by destruct (lastEntityNamed _ _).
  - intros elems Helems. unfold importJson.
    assert (Forall readable elems) as Hread.
    { eapply Forall_impl; [exact Helems|]. by intros c [? _]. }
    destruct (indexByName_readable ∅ elems n Hread) as (byName & -> & HbyName).
    destruct (mapM_js_total (importChampion byName) prev n) as [out Hout].
    + intros c m _. apply (importChampion_wellShaped elems); [done|].
      intros name. rewrite HbyName, lookup_empty. by destruct (lastEntityNamed _ _).
    + destruct (mapM (importChampion byName) prev n) as [[out'|] n2]; [|done]. by eexists _, _.
Qed.
End import.

Lemma importJson_keeps_identity_witness :
  let prev := [ahri [skin "s1" "Foxfire" true]] in
  let entry := championObject (VString (str "other-id")) (VString (str "Ahri"))
                 (VString (str "not an array")) in
  importJson (H:=sample_uid) (FileJson (VArray [entry])) prev 0
    = (Updated [of_Champion (ahri [skin "s1" "Foxfire" true])], 0)
  ∧ ∃ elems, FileJson (VArray [entry]) = FileJson (VArray elems)
      ∧ Forall2 (λ c o, importedAs (H:=sample_uid) c
                          (lastEntityNamed (Champion.name c) elems) o)
          prev [of_Champion (ahri [skin "s1" "Foxfire" true])].
Proof.
  split; [by vm_compute|].
  apply (proj1 (importJson_keeps_identity (H:=sample_uid)
                  [ahri [skin "s1" "Foxfire" true]] 0)
           _ _ 0).
  by vm_compute.
Defined.

(** ** More on [normalize] and the name filter *)

Lemma reorder_insert_starters c out :
  filter (λ d, Unicode.ccc d = 0%N) (reorder_insert c out)
  = filter (λ d, Unicode.ccc d = 0%N) (c :: out).
Proof.
  destruct (decide (Unicode.ccc c = 0%N)) as [Hc|Hc].
  - destruct out as [|d out]; [reflexivity|]. cbn [reorder_insert].
    rewrite Hc. reflexivity.
  - rewrite (filter_cons_False _ c out Hc).
    induction out as [|d out IH]; cbn [reorder_insert].
    + apply (filter_cons_False _ c [] Hc).
    + destruct (_ && _).
      * rewrite !(filter_cons _ d), IH. reflexivity.
      * apply (filter_cons_False _ c (d :: out) Hc).
Qed.

Lemma reorder_fold_starters_filter s out :
  filter (λ d, Unicode.ccc d = 0%N) (foldl (λ out c, reorder_insert c out) out s)
  = filter (λ d, Unicode.ccc d = 0%N) (reverse s ++ out).
Proof.
  revert out. induction s as [|c s IH]; intros out; [reflexivity|].
  cbn [foldl]. rewrite IH, reverse_cons, <- app_assoc, !filter_app.
  f_equal. rewrite reorder_insert_starters. apply (filter_app _ [c] out).
Qed.

Lemma canonicalOrder_starters_filter s :
  filter (λ d, Unicode.ccc d = 0%N) (canonicalOrder s)
  = filter (λ d, Unicode.ccc d = 0%N) s.
Proof.
  unfold canonicalOrder.
  rewrite filter_reverse, reorder_fold_starters_filter, app_nil_r, filter_reverse.
  apply reverse_involutive.
Qed.

Lemma filter_ext_elem {A} (P Q : A → Prop) `{∀ x, Decision (P x)}
    `{∀ x, Decision (Q x)} (l : list A) :
  (∀ x, x ∈ l → P x ↔ Q x) → filter P l = filter Q l.
Proof.
  induction l as [|x l IH]; intros HPQ; [reflexivity|].
  rewrite !filter_cons, IH by (intros y Hy; apply HPQ; by right).
  destruct (decide (P x)) as [HP|HP], (decide (Q x)) as [HQ|HQ];
    try reflexivity; exfalso; apply (HPQ x (list_elem_of_here x l)) in HP
    || apply HP, (HPQ x (list_elem_of_here x l)), HQ; contradiction.
Qed.

Lemma normalize_plain_eq s :
  Forall plain s →
  normalize s = filter kept ((s ≫= Unicode.lower) ≫= Unicode.decompose).
Proof.
  intros Hs. unfold normalize, normalizeNFD, toLowerCase.
  set (X := (s ≫= Unicode.lower) ≫= Unicode.decompose).
  assert (HX : ∀ d, d ∈ X → kept d → Unicode.ccc d = 0%N).
  { intros d Hd [Hm Hp]. apply list_elem_of_bind in Hd as (l & Hdl & Hl).
    apply list_elem_of_bind in Hl as (c & Hl & Hc).
    rewrite Forall_forall in Hs.
    destruct (plain_survivors c l d (Hs c Hc) Hl Hdl Hm Hp) as (_ & _ & Hccc & _).
    exact Hccc. }
  rewrite list_filter_filter.
  rewrite (filter_ext_elem _ (λ c, kept c ∧ Unicode.ccc c = 0%N) (canonicalOrder X)).
  2: { intros d Hd. rewrite canonicalOrder_perm in Hd. specialize (HX d Hd).
       unfold kept in *. split; [intros [Hp Hm]|intros [[Hm Hp] _]]; auto. }
  rewrite <- list_filter_filter, canonicalOrder_starters_filter, list_filter_filter.
  apply filter_ext_elem. intros d Hd. specialize (HX d Hd).
  split; [intros [Hk _]; exact Hk|intros Hk; split; [exact Hk|exact (HX Hk)]].
Qed.

Lemma normalize_plain_app s t :
  Forall plain s → Forall plain t →
  normalize (s ++ t) = normalize s ++ normalize t.
Proof.
  intros Hs Ht.
  rewrite !normalize_plain_eq by (try apply Forall_app; auto).
  by rewrite !bind_app, filter_app.
Qed.

(** X1: on plain strings (code points up to U+036F whose combining marks are
    all Diacritic) [normalize] distributes over concatenation, and what it
    returns holds none of the characters it is meant to remove. *)
Theorem normalize_app s t :
  Forall plain s → Forall plain t →
  normalize (s ++ t) = normalize s ++ normalize t
  ∧ Forall kept (normalize (s ++ t)).
Proof.
  intros Hs Ht. split; [by apply normalize_plain_app|].
  apply Forall_forall. intros c Hc. unfold normalize in Hc.
  apply list_elem_of_filter in Hc as [Hp Hc].
  apply list_elem_of_filter in Hc as [Hm _]. by split.
Qed.

Lemma normalize_app_witness :
  normalize (str "Cho'" ++ str "Gath") = normalize (str "Cho'") ++ normalize (str "Gath")
  ∧ Forall kept (normalize (str "Cho'" ++ str "Gath")).
Proof.
  apply normalize_app; apply (bool_decide_unpack _); vm_compute; exact I.
Defined.





(** ** [filtered], [totals] and the champion row *)

Lemma isShown_split normQuery c :
  isShown normQuery ShowWith c = isShown normQuery ShowAll c && hasChecked c
  ∧ isShown normQuery ShowWithout c
    = isShown normQuery ShowAll c && negb (hasChecked c).
Proof.
  unfold isShown.
  destruct (negb (bool_decide (normQuery = [])) && _); [done|].
  rewrite !bool_decide_eq_true_2, !bool_decide_eq_false_2 by done.
  by destruct (hasChecked c).
Qed.

Lemma filter_bool_length {A} (f : A → bool) (l : list A) :
  length (filter (λ x, f x = true) l) + length (filter (λ x, f x = false) l)
  = length l.
Proof.
  induction l as [|x l IH]; [done|].
  rewrite !filter_cons. destruct (f x).
  - rewrite decide_True, decide_False by done. cbn [length]. lia.
  - rewrite decide_False, decide_True by done. cbn [length]. lia.
Qed.

Lemma filtered_split champions query :
  filtered champions query ShowWith
  = filter (λ c, hasChecked c = true) (filtered champions query ShowAll)
  ∧ filtered champions query ShowWithout
    = filter (λ c, hasChecked c = false) (filtered champions query ShowAll)
  ∧ length (filtered champions query ShowWith)
    + length (filtered champions query ShowWithout)
    = length (filtered champions query ShowAll)
  ∧ (normalize query = [] → filtered champions query ShowAll = champions).
Proof.
  unfold filtered.
  assert (filter (λ c, isShown (normalize query) ShowWith c = true) champions
          = filter (λ c, hasChecked c = true)
              (filter (λ c, isShown (normalize query) ShowAll c = true) champions))
    as HW.
  { rewrite list_filter_filter. apply list_filter_iff. intros c.
    rewrite (proj1 (isShown_split _ c)), andb_true_iff. tauto. }
  assert (filter (λ c, isShown (normalize query) ShowWithout c = true) champions
          = filter (λ c, hasChecked c = false)
              (filter (λ c, isShown (normalize query) ShowAll c = true) champions))
    as HO.
  { rewrite list_filter_filter. apply list_filter_iff. intros c.
    rewrite (proj2 (isShown_split _ c)), andb_true_iff, negb_true_iff. tauto. }
  rewrite HW, HO. split; [done|]. split; [done|]. split.
  - apply filter_bool_length.
  - intros ->. clear HW HO. induction champions as [|c l IH]; [done|].
    rewrite filter_cons_True; [by f_equal|].
    unfold isShown. by rewrite bool_decide_eq_true_2.
Qed.

(** X3: for every query, the champions shown under [ShowWith] are those
    shown under [ShowAll] that have a checked skin, the champions shown
    under [ShowWithout] are the others, in the same order; the two lists
    have no champion in common as far as [hasChecked] tells, and together
    they are as many as under [ShowAll].  A query whose normal form is empty
    (empty, or made of spaces and punctuation) shows every champion. *)
Theorem filtered_partition champions query :
  filtered champions query ShowWith
  = filter (λ c, hasChecked c = true) (filtered champions query ShowAll)
  ∧ filtered champions query ShowWithout
    = filter (λ c, hasChecked c = false) (filtered champions query ShowAll)
  ∧ length (filtered champions query ShowWith)
    + length (filtered champions query ShowWithout)
    = length (filtered champions query ShowAll)
  ∧ (normalize query = [] → filtered champions query ShowAll = champions).
Proof. apply filtered_split. Qed.

Lemma foldl_sum {A} (f : A → nat) (l : list A) a :
  foldl (λ acc c, acc + f c) a l = a + sum_list_with f l.
Proof.
  revert a. induction l as [|c l IH]; intros a; simpl; [lia|].
  rewrite IH. lia.
Qed.

Lemma sum_list_with_le {A} (f g : A → nat) (l : list A) :
  (∀ x, f x ≤ g x) → sum_list_with f l ≤ sum_list_with g l.
Proof.
  intros Hfg. induction l as [|x l IH]; cbn [sum_list_with]; [lia|].
  specialize (Hfg x). lia.
Qed.

Lemma hasChecked_count c :
  hasChecked c = true ↔ 0 < checkedCount c.
Proof.
  unfold hasChecked, checkedCount.
  induction (Champion.skins c) as [|s l IH]; [cbn; split; [done|lia]|].
  cbn [existsb]. rewrite filter_cons. destruct (Skin.checked s).
  - rewrite decide_True by done. cbn [orb length]. split; [lia|done].
  - rewrite decide_False by done. exact IH.
Qed.

(** X4: the four counters are consistent: [skinChecked] and [skinTotal] are
    the sums of the row counters, checked skins are at most all skins,
    champions with a checked skin are at most all champions and at most the
    checked skins, they are exactly the champions shown by an empty query
    under [ShowWith], and there are none iff no skin is checked. *)
Theorem totals_consistent champions :
  let t := totals champions in
  Totals.skinChecked t = sum_list_with checkedCount champions
  ∧ Totals.skinTotal t = sum_list_with total champions
  ∧ Totals.skinChecked t ≤ Totals.skinTotal t
  ∧ Totals.champsWithChecked t ≤ Totals.champsTotal t
  ∧ Totals.champsWithChecked t ≤ Totals.skinChecked t
  ∧ Totals.champsWithChecked t = length (filtered champions [] ShowWith)
  ∧ (Totals.champsWithChecked t = 0 ↔ Totals.skinChecked t = 0).
Proof.
  cbn [totals Totals.skinChecked Totals.skinTotal Totals.champsWithChecked
       Totals.champsTotal].
  rewrite !foldl_sum. cbn [Nat.add].
  change (λ c, length (filter (λ s, Skin.checked s = true) (Champion.skins c)))
    with checkedCount.
  change (λ c, length (Champion.skins c)) with total.
  split; [done|]. split; [done|].
  split.
  { apply sum_list_with_le. intros c. apply length_filter. }
  split; [apply length_filter|].
  assert (length (filter (λ c, hasChecked c = true) champions)
          ≤ sum_list_with checkedCount champions
          ∧ (length (filter (λ c, hasChecked c = true) champions) = 0
             ↔ sum_list_with checkedCount champions = 0)) as [Hle Hzero].
  { induction champions as [|c l [IH1 IH2]]; [done|].
    rewrite filter_cons. cbn [sum_list_with].
    pose proof (hasChecked_count c) as Hc.
    destruct (hasChecked c).
    - rewrite decide_True by done. cbn [length].
      assert (0 < checkedCount c) by (by apply Hc). split; lia.
    - rewrite decide_False by done.
      assert (checkedCount c = 0) as ->.
      { destruct (checkedCount c); [done|]. destruct Hc as [_ Hc].
        discriminate Hc. lia. }
      done. }
  split; [done|]. split; [|done].
  destruct (filtered_split champions []) as (-> & _ & _ & Hall).
  by rewrite Hall.
Qed.

Lemma fmap_reflag (b : bool) (l : list Skin.t) :
  Skin.id <$> ((λ s, Skin.mk (Skin.id s) (Skin.name s) b) <$> l) = Skin.id <$> l
  ∧ Skin.name <$> ((λ s, Skin.mk (Skin.id s) (Skin.name s) b) <$> l)
    = Skin.name <$> l.
Proof.
  induction l as [|s l [IH1 IH2]]; [done|].
  rewrite !fmap_cons, IH1, IH2. done.
Qed.

(** X5: [clearAllChecks] leaves no checked skin: the counters of checked
    skins and of champions with a checked skin become 0, [ShowWith] shows
    nothing, while the champions, their ids and names, and the ids, names
    and order of their skins stay as they were. *)
Theorem clearAllChecks_resets prev :
  totals (clearAllChecks prev)
  = Totals.mk 0 (Totals.champsTotal (totals prev)) 0 (Totals.skinTotal (totals prev))
  ∧ (∀ query, filtered (clearAllChecks prev) query ShowWith = [])
  ∧ Forall2 (λ c c',
       Champion.id c' = Champion.id c ∧ Champion.name c' = Champion.name c
       ∧ Skin.id <$> Champion.skins c' = Skin.id <$> Champion.skins c
       ∧ Skin.name <$> Champion.skins c' = Skin.name <$> Champion.skins c)
      prev (clearAllChecks prev).
Proof.
  assert (∀ c, checkedCount (Champion.mk (Champion.id c) (Champion.name c)
            ((λ s, Skin.mk (Skin.id s) (Skin.name s) false) <$> Champion.skins c)) = 0)
    as Hcount.
  { intros c. unfold checkedCount. cbn [Champion.skins].
    induction (Champion.skins c) as [|s l IH]; [done|].
    rewrite fmap_cons, filter_cons_False; [exact IH|]. by cbn. }
  assert (∀ c, hasChecked (Champion.mk (Champion.id c) (Champion.name c)
            ((λ s, Skin.mk (Skin.id s) (Skin.name s) false) <$> Champion.skins c)) = false)
    as Hnone.
  { intros c. pose proof (hasChecked_count (Champion.mk (Champion.id c) (Champion.name c)
      ((λ s, Skin.mk (Skin.id s) (Skin.name s) false) <$> Champion.skins c))) as Hc.
    rewrite Hcount in Hc. destruct (hasChecked _); [|done]. destruct Hc as [Hc _].
    specialize (Hc eq_refl). lia. }
  split; [|split].
  - unfold totals. rewrite !foldl_sum. cbn [Nat.add Totals.champsTotal Totals.skinTotal].
    unfold clearAllChecks. f_equal.
    + induction prev as [|c l IH]; [done|].
      rewrite fmap_cons, filter_cons_False; [exact IH|]. by rewrite Hnone.
    + by rewrite length_fmap.
    + induction prev as [|c l IH]; [done|].
      rewrite fmap_cons. cbn [sum_list_with]. rewrite IH.
      change (length (filter _ (Champion.skins ?x))) with (checkedCount x).
      by rewrite Hcount.
    + induction prev as [|c l IH]; [done|].
      rewrite fmap_cons. cbn [sum_list_with Champion.skins]. by rewrite IH, length_fmap.
  - intros query. unfold filtered, clearAllChecks.
    induction prev as [|c l IH]; [done|].
    rewrite fmap_cons, filter_cons_False; [exact IH|].
    rewrite (proj1 (isShown_split _ _)), Hnone, andb_false_r. done.
  - unfold clearAllChecks. apply Forall2_fmap_r, Forall_Forall2_diag, Forall_forall.
    intros c _. split; [done|]. split; [done|].
    split; apply (fmap_reflag false).
Qed.

Lemma filter_length_pos {A} (f : A → bool) (b : bool) (l : list A) :
  0 < length (filter (λ x, f x = b) l) ↔ Exists (λ x, f x = b) l.
Proof.
  induction l as [|x l IH]; [split; [cbn; lia|by intros ?%Exists_nil]|].
  rewrite filter_cons, Exists_cons.
  destruct (decide (f x = b)) as [Hx|Hx]; [cbn [length]; split; [tauto|lia]|].
  rewrite IH. tauto.
Qed.

Lemma filter_length_zero {A} (f : A → bool) (l : list A) :
  length (filter (λ x, f x = false) l) = 0 ↔ Forall (λ x, f x = true) l.
Proof.
  induction l as [|x l IH]; [by split|].
  rewrite filter_cons, Forall_cons. destruct (f x).
  - rewrite decide_False by done. rewrite IH. tauto.
  - rewrite decide_True by done. cbn [length]. split; [lia|by intros [? _]].
Qed.

Lemma row_flags_spec champion :
  (allChecked champion = true
   ↔ Champion.skins champion ≠ []
     ∧ Forall (λ s, Skin.checked s = true) (Champion.skins champion))
  ∧ (someChecked champion = true
     ↔ Exists (λ s, Skin.checked s = true) (Champion.skins champion)
       ∧ Exists (λ s, Skin.checked s = false) (Champion.skins champion))
  ∧ indeterminate champion = someChecked champion
  ∧ allChecked champion && someChecked champion = false.
Proof.
  unfold indeterminate, allChecked, someChecked, checkedCount, total.
  pose proof (filter_bool_length Skin.checked (Champion.skins champion)) as Hsum.
  pose proof (filter_length_pos Skin.checked true (Champion.skins champion)) as Hsome.
  pose proof (filter_length_pos Skin.checked false (Champion.skins champion)) as Hnot.
  pose proof (filter_length_zero Skin.checked (Champion.skins champion)) as Hall.
  revert Hsum Hsome Hnot Hall.
  generalize (length (filter (λ s, Skin.checked s = true) (Champion.skins champion))).
  generalize (length (filter (λ s, Skin.checked s = false) (Champion.skins champion))).
  intros u k Hsum Hsome Hnot Hall.
  assert (Champion.skins champion ≠ [] ↔ 0 < length (Champion.skins champion)) as Hne.
  { destruct (Champion.skins champion); cbn [length]; split; (done || lia). }
  rewrite <- Hsome, <- Hnot, <- Hall, Hne.
  generalize dependent (length (Champion.skins champion)). intros m Hsum _.
  destruct (Nat.ltb_spec 0 m), (Nat.eqb_spec k m), (Nat.ltb_spec 0 k),
    (Nat.ltb_spec k m); cbn [andb negb];
    repeat split; try done; try lia; try (intros [? ?]; lia); intros; lia.
Qed.

(** X6: the master checkbox of a row.  [allChecked] holds iff the champion
    has a skin and every skin is checked; [someChecked] holds iff a skin is
    checked and a skin is not; they never hold together, so the
    [indeterminate] flag is [someChecked]. *)
Theorem row_flags champion :
  (allChecked champion = true
   ↔ Champion.skins champion ≠ []
     ∧ Forall (λ s, Skin.checked s = true) (Champion.skins champion))
  ∧ (someChecked champion = true
     ↔ Exists (λ s, Skin.checked s = true) (Champion.skins champion)
       ∧ Exists (λ s, Skin.checked s = false) (Champion.skins champion))
  ∧ indeterminate champion = someChecked champion
  ∧ allChecked champion && someChecked champion = false.
Proof. apply row_flags_spec. Qed.

(** ** [toggleAllSkins], [toggleSkin], [removeSkin] *)

Lemma updateChampion_pure id (g : Champion.t → Champion.t) prev n :
  updateChampion id (λ c, mret (g c)) prev n
  = ((λ c, if bool_decide (Champion.id c = id) then g c else c) <$> prev, n).
Proof.
  unfold updateChampion.
  set (f := λ c, if bool_decide (Champion.id c = id) then mret (g c) else mret c).
  induction prev as [|c prev IH]; [done|].
  rewrite mapM_gen_cons, fmap_cons. unfold f at 1.
  destruct (bool_decide (Champion.id c = id)); cbn [mret gen_ret]; by rewrite IH.
Qed.

Lemma updateChampion_unknown id (g : Champion.t → Champion.t) prev n :
  id ∉ (Champion.id <$> prev) →
  updateChampion id (λ c, mret (g c)) prev n = (prev, n).
Proof.
  intros Hid. rewrite updateChampion_pure. f_equal.
  induction prev as [|c prev IH]; [done|].
  rewrite fmap_cons in Hid. rewrite fmap_cons.
  apply not_elem_of_cons in Hid as [Hc Hid].
  rewrite IH by done. by rewrite bool_decide_eq_false_2.
Qed.

(** X7: [toggleAllSkins] draws no identifier and keeps the number and order
    of champions; a champion with another id is returned as it was; a
    champion with the given id keeps its id, name and the ids, names and
    order of its skins, all of which get the given flag, so that its row is
    never indeterminate and shows [allChecked] exactly when the flag is set
    and it has a skin.  With an id that no champion has, nothing changes. *)
Theorem toggleAllSkins_sets championId checked prev n :
  (toggleAllSkins championId checked prev n).2 = n
  ∧ Forall2 (λ c c',
       if bool_decide (Champion.id c = championId)
       then Champion.id c' = Champion.id c ∧ Champion.name c' = Champion.name c
            ∧ Skin.id <$> Champion.skins c' = Skin.id <$> Champion.skins c
            ∧ Skin.name <$> Champion.skins c' = Skin.name <$> Champion.skins c
            ∧ Forall (λ s, Skin.checked s = checked) (Champion.skins c')
            ∧ indeterminate c' = false
            ∧ allChecked c' = checked && negb (bool_decide (Champion.skins c = []))
       else c' = c)
      prev (toggleAllSkins championId checked prev n).1
  ∧ (championId ∉ (Champion.id <$> prev) →
     toggleAllSkins championId checked prev n = (prev, n)).
Proof.
  unfold toggleAllSkins. split; [by rewrite updateChampion_pure|].
  split; [|apply updateChampion_unknown].
  rewrite updateChampion_pure. cbn [fst].
  apply Forall2_fmap_r, Forall_Forall2_diag, Forall_forall. intros c _.
  unfold compose.
  destruct (bool_decide (Champion.id c = championId)); [|done].
  set (c' := Champion.mk _ _ _).
  assert (Forall (λ s, Skin.checked s = checked) (Champion.skins c')) as Hall.
  { apply Forall_fmap, Forall_forall. by intros s _. }
  split; [done|]. split; [done|].
  split; [apply fmap_reflag|]. split; [apply fmap_reflag|]. split; [exact Hall|].
  destruct (row_flags_spec c') as (Hac & Hsc & Hind & _).
  split.
  - rewrite Hind. destruct (someChecked c'); [|done].
    destruct (proj1 Hsc eq_refl)
      as [[s [Hin Hs]]%Exists_exists [s' [Hin' Hs']]%Exists_exists].
    rewrite Forall_forall in Hall.
    rewrite (Hall s Hin) in Hs. rewrite (Hall s' Hin') in Hs'. congruence.
  - assert (Champion.skins c' = [] ↔ Champion.skins c = []) as Hnil.
    { subst c'. cbn. destruct (Champion.skins c); by split. }
    destruct (allChecked c').
    + destruct (proj1 Hac eq_refl) as [Hne Hch]. symmetry. apply andb_true_iff. split.
      * destruct (Champion.skins c') as [|s l] eqn:Hs; [done|].
        apply Forall_cons in Hch as [Hch _]. apply Forall_cons in Hall as [Hall _].
        congruence.
      * apply negb_true_iff, bool_decide_eq_false. tauto.
    + symmetry. apply andb_false_iff.
      destruct checked; [right|by left].
      apply negb_false_iff, bool_decide_eq_true.
      destruct (decide (Champion.skins c = [])) as [|Hne]; [done|].
      exfalso. assert (false = true) as Hf; [|discriminate Hf].
      apply (proj2 Hac). split; [tauto|exact Hall].
Qed.

(** X8: [toggleSkin] draws no identifier, keeps the number and order of
    champions and of each champion's skins, and changes nothing but the
    [checked] flag of the skins with the given skin id in the champions with
    the given champion id.  Applying it twice with the same arguments is the
    same as applying it once, and with a champion id that no champion has
    nothing changes. *)
Theorem toggleSkin_sets championId skinId checked prev n :
  toggleSkin championId skinId checked prev n
  = ((λ c, if bool_decide (Champion.id c = championId)
           then Champion.mk (Champion.id c) (Champion.name c)
                  ((λ s, if bool_decide (Skin.id s = skinId)
                         then Skin.mk (Skin.id s) (Skin.name s) checked else s)
                     <$> Champion.skins c)
           else c) <$> prev, n)
  ∧ toggleSkin championId skinId checked
      (toggleSkin championId skinId checked prev n).1 n
    = toggleSkin championId skinId checked prev n
  ∧ (championId ∉ (Champion.id <$> prev) →
     toggleSkin championId skinId checked prev n = (prev, n))
  ∧ (Forall (λ c, Champion.id c = championId →
               skinId ∉ (Skin.id <$> Champion.skins c)) prev →
     toggleSkin championId skinId checked prev n = (prev, n)).
Proof.
  unfold toggleSkin. split; [apply updateChampion_pure|].
  split; [|split; [apply updateChampion_unknown|]].
  - rewrite !updateChampion_pure. cbn [fst]. f_equal.
    rewrite <- list_fmap_compose. apply list_fmap_ext. intros _ c _. cbn.
    destruct (bool_decide (Champion.id c = championId)) eqn:Hc; cbn; rewrite Hc;
      [|done].
    f_equal. rewrite <- list_fmap_compose. apply list_fmap_ext. intros _ s _. cbn.
    destruct (bool_decide (Skin.id s = skinId)) eqn:Hs; cbn; by rewrite Hs.
  - intros Hskins. rewrite updateChampion_pure. f_equal.
    induction Hskins as [|c l Hc _ IH]; [done|].
    rewrite fmap_cons, IH. f_equal.
    case_bool_decide as Hid; [|done]. specialize (Hc Hid).
    destruct c as [i nm sk]. cbn in *. f_equal.
    induction sk as [|s sk IHs]; [done|].
    rewrite fmap_cons in Hc. rewrite fmap_cons.
    apply not_elem_of_cons in Hc as [Hs Hc].
    rewrite IHs by done. by rewrite bool_decide_eq_false_2.
Qed.

Lemma filter_earlier_nil {A} (f : A → jsstring) (l : list A) i x :
  NoDup (f <$> l) → l !! i = Some x →
  filter (λ y, f y = f x) (take i l) = [].
Proof.
  revert i. induction l as [|y l IH]; intros i Hnd Hi; [done|].
  rewrite fmap_cons in Hnd. apply NoDup_cons in Hnd as [Hy Hnd].
  destruct i as [|i]; [done|]. rewrite lookup_cons in Hi.
  rewrite firstn_cons, filter_cons_False; [by apply IH|].
  intros Heq. apply Hy. rewrite Heq. apply list_elem_of_fmap.
  exists x. split; [done|]. by eapply list_elem_of_lookup_2.
Qed.

Lemma updateChampion_unique (g : nat → Champion.t → Champion.t) id
    (updater : Champion.t → Gen Champion.t) prev n :
  (∀ c m, updater c m = (g m c, S m)) →
  NoDup (Champion.id <$> prev) →
  (updateChampion id updater prev n).1
  = (λ c, if bool_decide (Champion.id c = id) then g n c else c) <$> prev.
Proof.
  intros Hupd Hnd. apply list_eq. intros i. rewrite list_lookup_fmap.
  destruct (prev !! i) as [c|] eqn:Hi.
  - rewrite (updateChampion_lookup g id updater prev n i c Hupd Hi). cbn.
    case_bool_decide as Hid; [|done]. unfold updatedBefore. subst id.
    by rewrite (filter_earlier_nil Champion.id prev i c Hnd Hi), Nat.add_0_r.
  - apply lookup_ge_None. apply lookup_ge_None in Hi.
    unfold updateChampion. by rewrite mapM_gen_length.
Qed.

Lemma filter_fresh_snoc (l : list Skin.t) (s : Skin.t) :
  Skin.id s ∉ (Skin.id <$> l) →
  filter (λ x, Skin.id x ≠ Skin.id s) (l ++ [s]) = l.
Proof.
  intros Hfresh. rewrite filter_app, (filter_cons_False _ s []) by (by intros ?).
  rewrite filter_nil, app_nil_r.
  induction l as [|x l IH]; [done|].
  rewrite fmap_cons in Hfresh. apply not_elem_of_cons in Hfresh as [Hx Hl].
  rewrite filter_cons_True by done. by rewrite IH.
Qed.

Lemma filter_fresh (l : list Skin.t) (i : jsstring) :
  i ∉ (Skin.id <$> l) → filter (λ x, Skin.id x ≠ i) l = l.
Proof.
  induction l as [|x l IH]; intros Hfresh; [done|].
  rewrite fmap_cons in Hfresh. apply not_elem_of_cons in Hfresh as [Hx Hl].
  rewrite filter_cons_True by done. by rewrite IH.
Qed.

(** X9: [removeSkin] draws no identifier and, in every champion with the
    given id (there may be several), keeps exactly the skins whose id
    differs from the given skin id, in their order; other champions are
    returned as they were.  It undoes [addSkin]: when the champion ids are
    pairwise distinct and the identifier that [addSkin] draws is not the id
    of a skin the champion already has, removing the skin with that
    identifier after [addSkin] gives back the champions as they were
    before, also when the name was blank and nothing was added. *)
Theorem removeSkin_undoes_addSkin `{UidSource} championId name prev n m :
  (∀ skinId,
     removeSkin championId skinId prev m
     = ((λ c, if bool_decide (Champion.id c = championId)
              then Champion.mk (Champion.id c) (Champion.name c)
                     (filter (λ s, Skin.id s ≠ skinId) (Champion.skins c))
              else c) <$> prev, m))
  ∧ (NoDup (Champion.id <$> prev) →
     (∀ c, c ∈ prev → Champion.id c = championId →
           uid_value n ∉ (Skin.id <$> Champion.skins c)) →
     removeSkin championId (uid_value n) (addSkin championId name prev n).1 m
     = (prev, m)).
Proof.
  split; [intros skinId; apply updateChampion_pure|].
  intros Hnd Hfresh. unfold removeSkin, addSkin.
  rewrite updateChampion_pure. f_equal.
  case_bool_decide as Hname.
  - cbn [fst mret gen_ret].
    rewrite <- (list_fmap_id prev) at 2. apply list_fmap_ext. intros i c Hc.
    apply list_elem_of_lookup_2 in Hc.
    case_bool_decide as Hid; [|done]. specialize (Hfresh c Hc Hid).
    destruct c as [ci nm sk]. cbn in Hfresh |- *. f_equal.
    by apply filter_fresh.
  - rewrite (updateChampion_unique
               (λ k c, Champion.mk (Champion.id c) (Champion.name c)
                         (Champion.skins c ++ [Skin.mk (uid_value k) (trim name) false])))
      by done.
    rewrite <- list_fmap_compose.
    rewrite <- (list_fmap_id prev) at 2. apply list_fmap_ext. intros i c Hc.
    apply list_elem_of_lookup_2 in Hc. unfold compose.
    destruct (decide (Champion.id c = championId)) as [Hid|Hid].
    + specialize (Hfresh c Hc Hid). rewrite (bool_decide_eq_true_2 _ Hid).
      destruct c as [ci nm sk]. cbn in Hid, Hfresh |- *.
      rewrite (bool_decide_eq_true_2 _ Hid). f_equal.
      by apply (filter_fresh_snoc sk (Skin.mk (uid_value n) (trim name) false)).
    + rewrite (bool_decide_eq_false_2 _ Hid). by rewrite (bool_decide_eq_false_2 _ Hid).
Qed.

Lemma removeSkin_undoes_addSkin_witness :
  let prev := [ahri [skin "s1" "Foxfire" true];
               Champion.mk (str "champ_zed") (str "Zed") []] in
  removeSkin (str "champ_ahri") (str "uid-" ++ [0%N])
    (addSkin (H:=sample_uid) (str "champ_ahri") (str " Midnight ") prev 0).1 1
  = (prev, 1).
Proof.
  refine (proj2 (removeSkin_undoes_addSkin (H:=sample_uid) (str "champ_ahri")
            (str " Midnight ")
            [ahri [skin "s1" "Foxfire" true];
             Champion.mk (str "champ_zed") (str "Zed") []] 0 1) _ _).
  - apply (bool_decide_unpack _). vm_compute. exact I.
  - intros c Hc Hid. apply elem_of_cons in Hc as [->|Hc].
    + apply (bool_decide_unpack _). vm_compute. exact I.
    + apply list_elem_of_singleton in Hc as ->. by vm_compute in Hid.
Defined.

(** ** Data Dragon: [buildKeyMap], [bootstrap], [prefillChampion], [prefillVisible] *)

Lemma buildKeyMap_fold (m : gmap jsstring jsstring) entries k :
  foldl (λ m entry,
           <[normalize (DDragonChampionSummary.id entry.2) := entry.1]>
             (<[normalize (DDragonChampionSummary.name entry.2) := entry.1]> m))
    m entries !! k
  = match last (filter (answersTo k) entries) with
    | Some entry => Some entry.1
    | None => m !! k
    end.
Proof.
  revert m. induction entries as [|e entries IH]; intros m; [done|].
  cbn [foldl]. rewrite IH, filter_cons.
  destruct (decide (answersTo k e)) as [He|He].
  - rewrite last_cons. destruct (last _); [done|].
    destruct (decide (normalize (DDragonChampionSummary.id e.2) = k)) as [<-|Hid].
    + apply lookup_insert_eq.
    + rewrite lookup_insert_ne by done. destruct He as [<-|?]; [|done].
      apply lookup_insert_eq.
  - destruct (last _); [done|]. unfold answersTo in He.
    rewrite !lookup_insert_ne; [done|tauto..].
Qed.

(** X10: [buildKeyMap] resolves a normalized string to the key of the last
    index entry whose display name or internal id has that normal form, and
    to nothing when there is no such entry; so every entry is reachable
    under both its name and its id unless a later entry answers to the same
    string. *)
Theorem buildKeyMap_lookup idx k :
  buildKeyMap idx !! k
  = fst <$> last (filter (answersTo k) (DDragonChampionIndex.data idx)).
Proof.
  unfold buildKeyMap. rewrite buildKeyMap_fold, lookup_empty.
  by destruct (last _).
Qed.

Section prefill.
Context `{UidSource}.

(** X11: the skins returned by [mergeSkins] correspond one to one, in
    order, to the fetched names: the skin at each position has the same
    normal form as the fetched name there.  The champion keeps its id and
    its name, and the call draws exactly as many identifiers as there are
    fetched names that match no existing skin. *)
Theorem mergeSkins_covers_fetched c fetchedNames n :
  (λ s, normalize (Skin.name s)) <$> Champion.skins (mergeSkins c fetchedNames n).1
  = normalize <$> fetchedNames
  ∧ Champion.id (mergeSkins c fetchedNames n).1 = Champion.id c
  ∧ Champion.name (mergeSkins c fetchedNames n).1 = Champion.name c
  ∧ (mergeSkins c fetchedNames n).2
    = n + length (filter (λ name, lastNamed (normalize name) (Champion.skins c) = None)
                    fetchedNames).
Proof.
  rewrite mergeSkins_unfold. cbn [fst snd].
  split; [apply merged_keys|]. split; [done|]. split; [done|].
  rewrite merged_state. unfold drawnBefore. by rewrite firstn_all.
Qed.

Lemma updateChampion_frame id (updater : Champion.t → Gen Champion.t) prev n :
  Forall2 (λ c c', if bool_decide (Champion.id c = id)
                   then ∃ m, c' = (updater c m).1
                   else c' = c)
    prev (updateChampion id updater prev n).1.
Proof.
  unfold updateChampion.
  set (f := λ c, if bool_decide (Champion.id c = id) then updater c else mret c).
  revert n. induction prev as [|c prev IH]; intros n; [constructor|].
  rewrite mapM_gen_cons. unfold f at 1.
  destruct (bool_decide (Champion.id c = id)) eqn:Hid.
  - destruct (updater c n) as [c' n1] eqn:Hc. specialize (IH n1).
    destruct (mapM f prev n1) as [ys n2]. constructor; [|exact IH].
    rewrite Hid. exists n. by rewrite Hc.
  - cbn [mret gen_ret]. specialize (IH n).
    destruct (mapM f prev n) as [ys n2]. constructor; [|exact IH]. by rewrite Hid.
Qed.

Lemma prefillChampion_frame fetch ddVersion ddKeyMap c prev n :
  Forall2 (prefilled [Champion.id c]) prev
    (prefillChampion fetch ddVersion ddKeyMap c prev n).1.
Proof.
  assert (Forall2 (prefilled [Champion.id c]) prev prev) as Hrefl.
  { apply Forall_Forall2_diag, Forall_forall. by intros x _. }
  unfold prefillChampion.
  destruct ddVersion as [version|], ddKeyMap as [keyMap|]; try exact Hrefl.
  destruct (bool_decide (version = [])); [exact Hrefl|].
  destruct (keyMap !! _) as [key|]; [|exact Hrefl].
  destruct (bool_decide (key = [])); [exact Hrefl|].
  destruct (bool_decide (length _ = 0)); [exact Hrefl|].
  eapply Forall2_impl; [apply updateChampion_frame|].
  intros x x'. cbn beta. case_bool_decide as Hid.
  - intros [m ->]. rewrite mergeSkins_unfold. cbn [fst].
    split; [done|]. split; [done|]. intros Hnot. exfalso. apply Hnot.
    rewrite Hid. apply list_elem_of_here.
  - by intros ->.
Qed.

Lemma prefilled_trans ids ids' (l1 l2 l3 : list Champion.t) :
  Forall2 (prefilled ids) l1 l2 → Forall2 (prefilled ids') l2 l3 →
  Forall2 (prefilled (ids ++ ids')) l1 l3.
Proof.
  intros H12. revert l3. induction H12 as [|a b l1 l2 Hab _ IH]; intros l3 H23.
  - apply Forall2_nil_inv_l in H23 as ->. constructor.
  - apply Forall2_cons_inv_l in H23 as (c & l3' & Hbc & H23 & ->).
    constructor; [|by apply IH].
    destruct Hab as (Hid & Hname & Hsame), Hbc as (Hid' & Hname' & Hsame').
    split; [congruence|]. split; [congruence|].
    intros Hnot. rewrite not_elem_of_app in Hnot. destruct Hnot as [Hn Hn'].
    rewrite Hsame' by (by rewrite Hid). by apply Hsame.
Qed.

(** X12: neither [prefillChampion] nor [prefillVisible] adds, removes or
    reorders champions or changes an id or a name; a champion whose id is
    not the id of a champion being prefilled is returned exactly as it
    was. *)
Theorem prefill_frame fetch ddVersion ddKeyMap c visible prev n :
  Forall2 (prefilled [Champion.id c]) prev
    (prefillChampion fetch ddVersion ddKeyMap c prev n).1
  ∧ Forall2 (prefilled (Champion.id <$> visible)) prev
      (prefillVisible fetch ddVersion ddKeyMap visible prev n).1.
Proof.
  split; [apply prefillChampion_frame|].
  assert (∀ ids, Forall2 (prefilled ids) prev prev) as Hrefl.
  { intros ids. apply Forall_Forall2_diag, Forall_forall. by intros x _. }
  unfold prefillVisible.
  destruct ddVersion as [version|] eqn:Hv, ddKeyMap as [keyMap|] eqn:Hk;
    try apply Hrefl.
  destruct (bool_decide (version = [])); [apply Hrefl|].
  rewrite <- Hv, <- Hk. clear Hrefl Hv Hk.
  revert prev n. induction visible as [|v visible IH]; intros prev n.
  - apply Forall_Forall2_diag, Forall_forall. by intros x _.
  - cbn [prefillEach]. unfold mbind, gen_bind.
    pose proof (prefillChampion_frame fetch ddVersion ddKeyMap v prev n) as Hv.
    destruct (prefillChampion fetch ddVersion ddKeyMap v prev n) as [next n1].
    rewrite fmap_cons. apply (prefilled_trans [Champion.id v] _ _ next _ Hv), IH.
Qed.

(** X13: when the remote catalog cannot be set up (the version list is not
    available or is empty, or the index request fails), the state left by
    [bootstrap] makes [prefillChampion] and [prefillVisible] return the
    champions unchanged without drawing an identifier. *)
Theorem prefill_unavailable versions index fetch c visible prev n :
  fetchDdragonLatestVersion versions = None
  ∨ (∀ v, fetchChampionIndex (index v) = None) →
  prefillChampion fetch (bootstrap versions index).1 (bootstrap versions index).2
    c prev n = (prev, n)
  ∧ prefillVisible fetch (bootstrap versions index).1 (bootstrap versions index).2
      visible prev n = (prev, n).
Proof.
  intros Hfail. unfold bootstrap.
  destruct (fetchDdragonLatestVersion versions) as [v|]; [|done].
  destruct Hfail as [?|Hindex]; [done|]. rewrite Hindex.
  by destruct (bool_decide (v = [])).
Qed.
End prefill.

Lemma prefill_unavailable_witness :
  let c := ahri [skin "s1" "Foxfire" true] in
  prefillChampion (H:=sample_uid) (λ _, Rejected)
    (bootstrap (VersionsList [str "15.1.1"]) (λ _, IndexResponded false None)).1
    (bootstrap (VersionsList [str "15.1.1"]) (λ _, IndexResponded false None)).2
    c [c] 0 = ([c], 0)
  ∧ prefillVisible (H:=sample_uid) (λ _, Rejected)
      (bootstrap (VersionsList [str "15.1.1"]) (λ _, IndexResponded false None)).1
      (bootstrap (VersionsList [str "15.1.1"]) (λ _, IndexResponded false None)).2
      [c] [c] 0 = ([c], 0).
Proof.
  apply (prefill_unavailable (H:=sample_uid)). right. intros v. reflexivity.
Defined.

(** ** Round trips through storage and files *)

Lemma entityProp_of_Skin s :
  entityProp (str "id") (of_Skin s) = VString (Skin.id s)
  ∧ entityProp (str "name") (of_Skin s) = VString (Skin.name s)
  ∧ entityProp (str "checked") (of_Skin s) = VBool (Skin.checked s).
Proof. done. Qed.

Lemma entityProp_of_Champion c :
  entityProp (str "id") (of_Champion c) = VString (Champion.id c)
  ∧ entityProp (str "name") (of_Champion c) = VString (Champion.name c)
  ∧ entityProp (str "skins") (of_Champion c) = VArray (of_Skin <$> Champion.skins c).
Proof. done. Qed.

Lemma readable_of_Champion c : readable (of_Champion c).
Proof. by split. Qed.

Lemma readable_of_Skin s : readable (of_Skin s).
Proof. by split. Qed.

Lemma isNamed_of_Champion name c :
  isNamed name (of_Champion c) = bool_decide (Champion.name c = name).
Proof. done. Qed.

Lemma filter_isNamed_of_Champion name (l : list Champion.t) :
  filter (λ v, isNamed name v = true) (of_Champion <$> l)
  = of_Champion <$> filter (λ x, Champion.name x = name) l.
Proof.
  induction l as [|x l IH]; [done|].
  rewrite fmap_cons, !filter_cons, IH, isNamed_of_Champion.
  destruct (decide (Champion.name x = name)) as [Hx|Hx].
  - by rewrite (bool_decide_eq_true_2 _ Hx), decide_True.
  - by rewrite (bool_decide_eq_false_2 _ Hx), decide_False.
Qed.

Lemma lastEntityNamed_of_Champion (l others : list Champion.t) c :
  NoDup (Champion.name <$> l) → c ∈ l →
  Forall (λ x, Champion.name x ≠ Champion.name c) others →
  lastEntityNamed (Champion.name c) (of_Champion <$> (l ++ others))
  = Some (of_Champion c).
Proof.
  intros Hnd Hc Hothers. unfold lastEntityNamed.
  rewrite filter_isNamed_of_Champion, filter_app.
  rewrite (filter_unique_key Champion.name l c Hnd Hc).
  assert (filter (λ x, Champion.name x = Champion.name c) others = []) as ->; [|done].
  induction Hothers as [|x others Hx _ IH]; [done|].
  by rewrite filter_cons_False.
Qed.

Section roundtrip.
Context `{UidSource}.

Lemma shapeSkin_of_Skin s n :
  Skin.id s ≠ [] → shapeSkin (of_Skin s) n = (Some (of_Skin s), n).
Proof.
  intros Hid. unfold shapeSkin.
  rewrite (js_bind_Some _ _ _ _ _ (prop_readable _ (str "id") n (readable_of_Skin s))).
  rewrite (proj1 (entityProp_of_Skin s)). cbn [truthy].
  rewrite (bool_decide_eq_false_2 _ Hid). cbn [negb].
  rewrite (js_bind_Some _ (mret (VString (Skin.id s))) n _ _ eq_refl).
  rewrite (js_bind_Some _ _ _ _ _ (prop_readable _ (str "name") n (readable_of_Skin s))).
  rewrite (js_bind_Some _ _ _ _ _ (prop_readable _ (str "checked") n (readable_of_Skin s))).
  destruct s as [i nm []]; reflexivity.
Qed.

Lemma shapeSkins_of_Skin skins n :
  Forall (λ s, Skin.id s ≠ []) skins →
  mapM shapeSkin (of_Skin <$> skins) n = (Some (of_Skin <$> skins), n).
Proof.
  induction 1 as [|s skins Hs _ IH]; [done|].
  by rewrite fmap_cons, mapM_js_cons, shapeSkin_of_Skin, IH.
Qed.

Lemma mergeCanonical_of_Champion (byName : gmap jsstring value) c n :
  byName !! Champion.name c = Some (of_Champion c) →
  Champion.id c ≠ [] →
  Forall (λ s, Skin.id s ≠ []) (Champion.skins c) →
  mergeCanonical byName (Champion.name c) n = (Some (of_Champion c), n).
Proof.
  intros Hlookup Hid Hskins. unfold mergeCanonical. rewrite Hlookup.
  change (truthy (of_Champion c)) with true. cbv iota.
  rewrite (js_bind_Some _ _ _ _ _
             (prop_readable _ (str "id") n (readable_of_Champion c))).
  rewrite (js_bind_Some _ _ _ _ _
             (prop_readable _ (str "name") n (readable_of_Champion c))).
  rewrite (js_bind_Some _ _ _ _ _
             (prop_readable _ (str "skins") n (readable_of_Champion c))).
  rewrite (proj2 (proj2 (entityProp_of_Champion c))).
  rewrite (js_bind_Some _ _ _ _ _ (shapeSkins_of_Skin (Champion.skins c) n Hskins)).
  rewrite (proj1 (entityProp_of_Champion c)). cbn [truthy].
  by rewrite (bool_decide_eq_false_2 _ Hid).
Qed.

Lemma importChampion_of_Champion (byName : gmap jsstring value) c n :
  byName !! Champion.name c = Some (of_Champion c) →
  Forall (λ s, Skin.id s ≠ []) (Champion.skins c) →
  importChampion byName c n = (Some (of_Champion c), n).
Proof.
  intros Hlookup Hskins. unfold importChampion. rewrite Hlookup.
  change (truthy (of_Champion c)) with true. cbv iota.
  rewrite (js_bind_Some _ _ _ _ _
             (prop_readable _ (str "skins") n (readable_of_Champion c))).
  rewrite (proj2 (proj2 (entityProp_of_Champion c))).
  rewrite (js_bind_Some _ _ n (VArray (of_Skin <$> Champion.skins c)) n); [done|].
  by rewrite (js_bind_Some _ _ _ _ _ (shapeSkins_of_Skin (Champion.skins c) n Hskins)).
Qed.

Lemma mapM_mergeCanonical_of_Champion (byName : gmap jsstring value) l n :
  Forall (λ c, byName !! Champion.name c = Some (of_Champion c)
               ∧ Champion.id c ≠ []
               ∧ Forall (λ s, Skin.id s ≠ []) (Champion.skins c)) l →
  mapM (mergeCanonical byName) (Champion.name <$> l) n
  = (Some (of_Champion <$> l), n).
Proof.
  induction 1 as [|c l (Hc & Hid & Hskins) _ IH]; [done|].
  by rewrite !fmap_cons, mapM_js_cons, mergeCanonical_of_Champion, IH.
Qed.

(** X14: saving and loading give the store back.  For a store made of one
    champion per canonical name, in canonical order, followed by champions
    with other names, where canonical champions and their skins have
    non-empty ids, [loadInitialChampions]
    applied to what [saveChampions] stored returns the same champions,
    skins, ids and checked flags, and draws no identifier. *)
Theorem load_save_roundtrip canonical custom n :
  Champion.name <$> canonical = CHAMPION_NAMES →
  Forall (λ c, Champion.name c ∉ CHAMPION_NAMES) custom →
  Forall (λ c, Champion.id c ≠ []
               ∧ Forall (λ s, Skin.id s ≠ []) (Champion.skins c)) canonical →
  loadInitialChampions (saveChampions (canonical ++ custom)) n
  = (of_Champion <$> (canonical ++ custom), n).
Proof.
  intros Hnames Hcustom Hids.
  set (elems := of_Champion <$> (canonical ++ custom)).
  assert (Forall readable elems) as Hread.
  { apply Forall_fmap, Forall_forall. intros c _. apply readable_of_Champion. }
  assert (NoDup (Champion.name <$> canonical)) as Hnd.
  { rewrite Hnames. apply names_distinct. }
  destruct (indexByName_readable ∅ elems n Hread) as (byName & Hidx & HbyName).
  assert (mapM (mergeCanonical byName) CHAMPION_NAMES n
          = (Some (of_Champion <$> canonical), n)) as Hcanon.
  { rewrite <- Hnames. apply mapM_mergeCanonical_of_Champion.
    apply Forall_forall. intros c Hc. rewrite Forall_forall in Hids.
    split; [|by apply Hids]. rewrite HbyName.
    unfold elems. rewrite (lastEntityNamed_of_Champion _ _ c Hnd Hc); [done|].
    eapply Forall_impl; [exact Hcustom|]. intros x Hx Heq. apply Hx.
    rewrite Heq, <- Hnames. apply list_elem_of_fmap. eauto. }
  assert (filter (λ c, isCanonicalName (entityProp (str "name") c) = false) elems
          = of_Champion <$> custom) as Hfilter.
  { unfold elems. rewrite fmap_app, filter_app.
    assert (filter (λ c, isCanonicalName (entityProp (str "name") c) = false)
              (of_Champion <$> canonical) = []) as ->.
    { assert (Forall (λ c, Champion.name c ∈ CHAMPION_NAMES) canonical) as Hin.
      { apply Forall_forall. intros c Hc. rewrite <- Hnames.
        apply list_elem_of_fmap. eauto. }
      clear -Hin. induction Hin as [|c l Hc _ IH]; [done|].
      rewrite fmap_cons, filter_cons_False; [exact IH|].
      rewrite (proj1 (proj2 (entityProp_of_Champion c))). cbn [isCanonicalName].
      by rewrite (bool_decide_eq_true_2 _ Hc). }
    cbn [app]. clear -Hcustom. induction Hcustom as [|c l Hc _ IH]; [done|].
    rewrite fmap_cons, filter_cons_True; [by rewrite IH|].
    rewrite (proj1 (proj2 (entityProp_of_Champion c))). cbn [isCanonicalName].
    by rewrite (bool_decide_eq_false_2 _ Hc). }
  unfold loadInitialChampions, try_catch, saveChampions, loadStored.
  fold elems.
  rewrite (js_bind_Some _ (mret (VArray elems)) n _ _ eq_refl).
  cbn [truthy].
  rewrite (js_bind_Some _ (iterate (VArray elems) ≫= indexByName ∅) _ _ _ Hidx).
  rewrite (js_bind_Some _ _ _ _ _ Hcanon).
  rewrite (js_bind_Some _ (iterate (VArray elems)) n _ _ eq_refl).
  rewrite (js_bind_Some _ _ _ _ _ (customChampions_readable elems n Hread)).
  rewrite Hfilter. unfold elems. by rewrite fmap_app.
Qed.

(** X15: importing one's own export changes nothing.  When the champions
    have pairwise different names and every skin has a non-empty id,
    [importJson] applied to the file written by [exportJson] updates the
    state to the same champions, skins, ids and checked flags, and draws no
    identifier. *)
Theorem import_export_roundtrip prev n :
  NoDup (Champion.name <$> prev) →
  Forall (λ c, Forall (λ s, Skin.id s ≠ []) (Champion.skins c)) prev →
  importJson (exportJson prev) prev n = (Updated (of_Champion <$> prev), n).
Proof.
  intros Hnd Hids. unfold importJson, exportJson.
  assert (Forall readable (of_Champion <$> prev)) as Hread.
  { apply Forall_fmap, Forall_forall. intros c _. apply readable_of_Champion. }
  destruct (indexByName_readable ∅ (of_Champion <$> prev) n Hread)
    as (byName & -> & HbyName).
  rewrite (mapM_js_pure (importChampion byName) of_Champion); [done|].
  intros c m Hc. rewrite Forall_forall in Hids.
  apply importChampion_of_Champion; [|by apply Hids].
  rewrite HbyName. rewrite <- (app_nil_r prev) at 1.
  by rewrite (lastEntityNamed_of_Champion prev [] c Hnd Hc).
Qed.
End roundtrip.

Lemma load_save_roundtrip_witness :
  let canonical :=
    (λ name, Champion.mk (nameToId name) name
               [Skin.mk (str "s-" ++ name) (str "Classic") true]) <$> CHAMPION_NAMES in
  let custom := [Champion.mk (str "custom") (str "CustomChamp") [skin "" "Prototype" false]] in
  loadInitialChampions (H:=sample_uid) (saveChampions (canonical ++ custom)) 0
  = (of_Champion <$> (canonical ++ custom), 0).
Proof.
  apply (load_save_roundtrip (H:=sample_uid)).
  - rewrite <- list_fmap_compose. apply list_fmap_id.
  - apply (bool_decide_unpack _). vm_compute. exact I.
  - apply Forall_fmap, Forall_forall. intros name _. by split; [|repeat constructor].
Defined.

Lemma import_export_roundtrip_witness :
  let prev := [ahri [skin "s1" "Foxfire" true];
               Champion.mk (str "champ_zed") (str "Zed") []] in
  importJson (H:=sample_uid) (exportJson prev) prev 0
  = (Updated (of_Champion <$> prev), 0).
Proof.
  apply (import_export_roundtrip (H:=sample_uid)).
  - apply (bool_decide_unpack _). vm_compute. exact I.
  - repeat constructor; discriminate.
Defined.

(** ** [loadInitialChampions] on any stored state *)

Lemma js_bind_inv {A B} (f : A → Js B) (m : Js A) n b n' :
  (m ≫= f) n = (Some b, n') →
  ∃ a n1, m n = (Some a, n1) ∧ f a n1 = (Some b, n').
Proof.
  unfold mbind, js_bind. destruct (m n) as [[a|] n1]; [eauto|done].
Qed.

Lemma mapM_js_throw {A B} (f : A → Js B) l x n :
  x ∈ l → (∀ m, (f x m).1 = None) → (mapM f l n).1 = None.
Proof.
  intros Hx Hthrow. revert n.
  induction l as [|y l IH]; intros n; [by apply elem_of_nil in Hx|].
  rewrite mapM_js_cons. apply elem_of_cons in Hx as [<-|Hx].
  - specialize (Hthrow n). by destruct (f x n) as [[?|] ?].
  - destruct (f y n) as [[?|] n1]; [|done]. specialize (IH Hx n1).
    by destruct (mapM f l n1) as [[?|] ?].
Qed.

Lemma indexByName_null byName elems n :
  VNull ∈ elems → indexByName byName elems n = (None, n).
Proof.
  revert byName. induction elems as [|c elems IH]; intros byName Hnull;
    [by apply elem_of_nil in Hnull|].
  cbn [indexByName].
  assert (prop c (str "name") n = (None, n) ∨ (readable c ∧ VNull ∈ elems))
    as [Hthrow|[Hr Hin]].
  { apply elem_of_cons in Hnull as [<-|Hin]; [by left|].
    destruct c; (by left) || (right; by repeat split). }
  - by rewrite (js_bind_None _ _ n n Hthrow).
  - rewrite (js_bind_Some _ _ _ _ _ (prop_readable c _ n Hr)). by apply IH.
Qed.

Lemma fresh_names :
  entityProp (str "name") <$> (freshChampion <$> CHAMPION_NAMES)
  = VString <$> CHAMPION_NAMES.
Proof. rewrite <- list_fmap_compose. by apply list_fmap_ext. Qed.

Section load_any.
Context `{UidSource}.

Lemma mergeCanonical_name (byName : gmap jsstring value) name n o n' :
  (∀ name c, byName !! name = Some c → isNamed name c = true) →
  mergeCanonical byName name n = (Some o, n') →
  entityProp (str "name") o = VString name.
Proof.
  intros HbyName. unfold mergeCanonical.
  destruct (byName !! name) as [existing|] eqn:Hex; [|by intros [= <- _]].
  apply HbyName in Hex. pose proof (isNamed_readable _ _ Hex) as Hread.
  apply isNamed_object in Hex as [Hname ->].
  rewrite !(js_bind_Some _ _ _ _ _ (prop_readable existing _ n Hread)).
  intros (sk & n1 & _ & [= <- _])%js_bind_inv. exact Hname.
Qed.

Lemma mapM_mergeCanonical_names (byName : gmap jsstring value) names n merged n' :
  (∀ name c, byName !! name = Some c → isNamed name c = true) →
  mapM (mergeCanonical byName) names n = (Some merged, n') →
  entityProp (str "name") <$> merged = VString <$> names.
Proof.
  intros HbyName Hmerged. apply mapM_js_Forall2 in Hmerged.
  induction Hmerged as [|name o names merged (m & m' & Ho) _ IH]; [done|].
  rewrite !fmap_cons, IH. f_equal. by eapply mergeCanonical_name.
Qed.

Lemma index_named parsed n byName n' :
  (if truthy parsed
   then elems ← iterate parsed; indexByName ∅ elems
   else mret ∅) n = (Some byName, n') →
  ∀ name c, byName !! name = Some c → isNamed name c = true.
Proof.
  destruct (truthy parsed).
  - intros (elems & n1 & _ & Hidx)%js_bind_inv name c.
    pose proof (indexByName_Some _ _ _ _ _ Hidx) as Hread.
    destruct (indexByName_readable ∅ elems n1 Hread) as (byName' & Hidx' & Hlookup).
    rewrite Hidx in Hidx'. injection Hidx' as <- _.
    rewrite Hlookup, lookup_empty.
    destruct (lastEntityNamed name elems) as [c'|] eqn:Hc; [|done].
    intros [= <-]. by apply lastEntityNamed_Some in Hc as [_ ?].
  - intros [= <- _] name c. by rewrite lookup_empty.
Qed.

Lemma loadStored_canonical st n out n' :
  loadStored st n = (Some out, n') →
  entityProp (str "name") <$> take (length CHAMPION_NAMES) out
  = VString <$> CHAMPION_NAMES.
Proof.
  unfold loadStored.
  intros (parsed & n1 & _ & Hrest)%js_bind_inv.
  apply js_bind_inv in Hrest as (byName & n2 & HbyName & Hrest).
  apply js_bind_inv in Hrest as (merged & n3 & Hmerged & Hrest).
  pose proof (mapM_mergeCanonical_names _ _ _ _ _ (index_named _ _ _ _ HbyName) Hmerged)
    as Hnames.
  assert (length merged = length CHAMPION_NAMES) as Hlen.
  { apply (f_equal length) in Hnames. by rewrite !length_fmap in Hnames. }
  destruct (truthy parsed).
  - apply js_bind_inv in Hrest as (elems & n4 & _ & Hrest).
    apply js_bind_inv in Hrest as (custom & n5 & _ & [= <- _]).
    by rewrite <- Hlen, take_app_length.
  - injection Hrest as <- _. by rewrite <- Hlen, firstn_all.
Qed.

(** X16: whatever the storage slot holds (nothing, text that is not JSON,
    any JSON value), [loadInitialChampions] returns a list that starts with
    one entity per canonical name, in the order of [CHAMPION_NAMES]. *)
Theorem loadInitialChampions_canonical st n :
  entityProp (str "name") <$> take (length CHAMPION_NAMES) (loadInitialChampions st n).1
  = VString <$> CHAMPION_NAMES.
Proof.
  unfold loadInitialChampions, try_catch.
  destruct (loadStored st n) as [[out|] n'] eqn:Hload.
  - by apply (loadStored_canonical st n out n').
  - cbn [mret gen_ret fst]. rewrite firstn_all2 by (by rewrite length_fmap).
    apply fresh_names.
Qed.

Lemma loadStored_Json parsed n :
  loadStored (Json parsed) n
  = match (if truthy parsed
           then elems ← iterate parsed; indexByName ∅ elems
           else mret ∅) n with
    | (Some byName, n1) =>
        match mapM (mergeCanonical byName) CHAMPION_NAMES n1 with
        | (Some merged, n2) =>
            if truthy parsed
            then match (elems ← iterate parsed; customChampions elems) n2 with
                 | (Some custom, n3) => (Some (merged ++ custom), n3)
                 | (None, n3) => (None, n3)
                 end
            else (Some merged, n2)
        | (None, n2) => (None, n2)
        end
    | (None, n1) => (None, n1)
    end.
Proof.
  unfold loadStored.
  rewrite (js_bind_Some _ (mret parsed) n _ _ eq_refl).
  destruct (truthy parsed).
  - destruct ((elems ← iterate parsed; indexByName ∅ elems) n) as [[byName|] n1] eqn:Hidx.
    + rewrite (js_bind_Some _ _ _ _ _ Hidx).
      destruct (mapM (mergeCanonical byName) CHAMPION_NAMES n1) as [[merged|] n2] eqn:Hm.
      * rewrite (js_bind_Some _ _ _ _ _ Hm).
        destruct (iterate parsed n2) as [[elems|] n3] eqn:Hit.
        -- rewrite !(js_bind_Some _ _ _ _ _ Hit).
           destruct (customChampions elems n3) as [[custom|] n4] eqn:Hc.
           ++ by rewrite (js_bind_Some _ _ _ _ _ Hc).
           ++ by rewrite (js_bind_None _ _ _ _ Hc).
        -- by rewrite !(js_bind_None _ _ _ _ Hit).
      * by rewrite (js_bind_None _ _ _ _ Hm).
    + by rewrite (js_bind_None _ _ _ _ Hidx).
  - rewrite (js_bind_Some _ (mret ∅) n ∅ n eq_refl).
    destruct (mapM (mergeCanonical ∅) CHAMPION_NAMES n) as [[merged|] n2] eqn:Hm.
    + by rewrite (js_bind_Some _ _ _ _ _ Hm).
    + by rewrite (js_bind_None _ _ _ _ Hm).
Qed.

(** X17: documents that the loader cannot use.  When the stored JSON value
    is neither an array nor a string, or is an array with a [null] element,
    the result is the fresh store and no identifier is drawn; when the
    stored array is readable but the entity kept for some canonical name has
    a [null] among its skins, the result is the fresh store as well: every
    stored entity is ignored. *)
Theorem loadInitialChampions_unusable parsed n :
  match parsed with
  | VString _ => False
  | VArray elems =>
      VNull ∈ elems
      ∨ Forall readable elems
        ∧ ∃ name c items,
            name ∈ CHAMPION_NAMES ∧ lastEntityNamed name elems = Some c
            ∧ entityProp (str "skins") c = VArray items ∧ VNull ∈ items
  | _ => True
  end →
  (loadInitialChampions (Json parsed) n).1 = freshChampion <$> CHAMPION_NAMES
  ∧ (match parsed with
     | VArray elems => VNull ∈ elems
     | _ => True
     end → (loadInitialChampions (Json parsed) n).2 = n).
Proof.
  intros Hbad.
  assert (∀ m, mapM (mergeCanonical ∅) CHAMPION_NAMES m
               = (Some (freshChampion <$> CHAMPION_NAMES), m)) as Hfresh.
  { intros m. apply mapM_js_pure. intros; apply mergeCanonical_fresh. }
  unfold loadInitialChampions, try_catch. rewrite loadStored_Json.
  destruct parsed as [| |b|x|s|elems|props].
  1,2: by cbn [truthy mret js_ret]; rewrite Hfresh.
  1: destruct b; cbn [truthy];
       [by rewrite (js_bind_None _ (iterate (VBool true)) n n eq_refl)
       |by cbn [mret js_ret]; rewrite Hfresh].
  1: destruct (truthy (VNumber x));
       [by rewrite (js_bind_None _ (iterate (VNumber x)) n n eq_refl)
       |by cbn [mret js_ret]; rewrite Hfresh].
  1: done.
  2: cbn [truthy]; by rewrite (js_bind_None _ (iterate (VObject props)) n n eq_refl).
  cbn [truthy].
  destruct Hbad as [Hnull|[Hread (name & c & items & Hname & Hc & Hsk & Hnull)]].
  - rewrite (js_bind_Some _ (iterate (VArray elems)) n _ _ eq_refl).
    by rewrite indexByName_null.
  - destruct (indexByName_readable ∅ elems n Hread) as (byName & Hidx & HbyName).
    rewrite (js_bind_Some _ (iterate (VArray elems)) n _ _ eq_refl), Hidx.
    assert ((mapM (mergeCanonical byName) CHAMPION_NAMES n).1 = None) as Hthrow.
    { apply (mapM_js_throw _ _ name); [done|]. intros m. unfold mergeCanonical.
      rewrite HbyName, lookup_empty, Hc.
      apply lastEntityNamed_Some in Hc as [_ Hnamed].
      pose proof (isNamed_readable _ _ Hnamed) as Hr.
      apply isNamed_object in Hnamed as [_ ->].
      rewrite !(js_bind_Some _ _ _ _ _ (prop_readable c _ m Hr)), Hsk.
      assert ((mapM shapeSkin items m).1 = None) as Hitems.
      { by apply (mapM_js_throw _ _ VNull). }
      destruct (mapM shapeSkin items m) as [[?|] m1] eqn:Hm; [done|].
      by rewrite (js_bind_None _ _ m m1 Hm). }
    destruct (mapM (mergeCanonical byName) CHAMPION_NAMES n) as [[?|] n1] eqn:Hm;
      [done|].
    split; [done|].
    intros Hnull'. rewrite Forall_forall in Hread. by destruct (Hread _ Hnull').
Qed.
End load_any.

Lemma loadInitialChampions_unusable_witness :
  (loadInitialChampions (H:=sample_uid)
     (Json (VArray [championObject (VString (str "champ_ahri")) (VString (str "Ahri"))
                      (VArray [of_Skin (skin "s1" "Foxfire" true); VNull])])) 0).1
  = freshChampion <$> CHAMPION_NAMES.
Proof.
  refine (proj1 (loadInitialChampions_unusable (H:=sample_uid)
    (VArray [championObject (VString (str "champ_ahri")) (VString (str "Ahri"))
               (VArray [of_Skin (skin "s1" "Foxfire" true); VNull])]) 0 _)).
  right. split; [repeat constructor; discriminate|].
  exists (str "Ahri"), (championObject (VString (str "champ_ahri")) (VString (str "Ahri"))
               (VArray [of_Skin (skin "s1" "Foxfire" true); VNull])),
    [of_Skin (skin "s1" "Foxfire" true); VNull].
  split; [apply (bool_decide_unpack _); vm_compute; exact I|].
  split; [by vm_compute|]. split; [done|].
  apply list_elem_of_further, list_elem_of_here.
Defined.

(** ** [trim], [fetchChampionSkins] and the prefill that succeeds *)

Lemma trimStart_split s :
  ∃ w, s = w ++ trimStart s
    ∧ Forall (λ c, Unicode.isWhiteSpace c = true) w
    ∧ match trimStart s with
      | [] => True
      | c :: _ => Unicode.isWhiteSpace c = false
      end.
Proof.
  induction s as [|c s (w & Hs & Hw & Hhead)]; [by exists []|].
  cbn [trimStart]. destruct (Unicode.isWhiteSpace c) eqn:Hc.
  - exists (c :: w). split; [by rewrite Hs at 1|]. split; [by constructor|done].
  - by exists [].
Qed.

Lemma trimStart_done s :
  match s with
  | [] => True
  | c :: _ => Unicode.isWhiteSpace c = false
  end → trimStart s = s.
Proof. destruct s as [|c s]; [done|]. cbn [trimStart]. by intros ->. Qed.

Lemma trim_idempotent s : trim (trim s) = trim s.
Proof.
  unfold trim.
  destruct (trimStart_split s) as (w1 & _ & _ & Ht).
  set (t := trimStart s) in *.
  destruct (trimStart_split (reverse t)) as (w2 & Hrev & Hw2 & Hu).
  set (u := trimStart (reverse t)) in *.
  assert (trimStart (reverse u) = reverse u) as ->.
  { apply trimStart_done. destruct u as [|c u']; [done|].
    assert (t = reverse (c :: u') ++ reverse w2) as Ht'.
    { rewrite <- reverse_app, <- Hrev. by rewrite reverse_involutive. }
    destruct (reverse (c :: u')) as [|d r] eqn:Hr.
    - apply (f_equal length) in Hr. rewrite length_reverse in Hr. done.
    - by rewrite Ht' in Ht. }
  rewrite reverse_involutive. f_equal. by apply trimStart_done.
Qed.

(** X18: every name returned by [fetchChampionSkins] is the trimmed name of
    a skin with [num > 0] of the entry found under the key in an OK
    response, and carries no white space at either end; the base skin
    ([num = 0]) and failed responses contribute nothing. *)
Theorem fetchChampionSkins_names fetch version locale key name :
  name ∈ fetchChampionSkins fetch version locale key →
  trim name = name
  ∧ ∃ data champ s,
      fetch (championUrl version locale key) = Responded true (Some data)
      ∧ DDragonChampionDetail.data data !! key = Some champ
      ∧ s ∈ DDragonChampion.skins champ
      ∧ PrimFloat.ltb 0 (DDragonSkin.num s) = true
      ∧ name = trim (DDragonSkin.name s).
Proof.
  unfold fetchChampionSkins.
  destruct (fetch _) as [|[] [data|]]; try by intros ?%elem_of_nil.
  destruct (DDragonChampionDetail.data data !! key) as [champ|] eqn:Hkey;
    [|by intros ?%elem_of_nil].
  intros (s & -> & [Hnum Hs]%list_elem_of_filter)%list_elem_of_fmap.
  split; [apply trim_idempotent|]. by exists data, champ, s.
Qed.

Lemma fetchChampionSkins_names_witness :
  let champ := DDragonChampion.mk (str "Ahri") (str "Ahri")
                 [DDragonSkin.mk (str "103000") 0 (str "default") false;
                  DDragonSkin.mk (str "103001") 1 (str " Ahri dynastique ") false] in
  let fetch := λ _ : jsstring,
    Responded true (Some (DDragonChampionDetail.mk (str "champion") (str "standAloneComplex")
                            (str "15.1.1") {[str "Ahri" := champ]})) in
  fetchChampionSkins fetch (str "15.1.1") DDRAGON_LOCALE (str "Ahri")
    = [str "Ahri dynastique"]
  ∧ trim (str "Ahri dynastique") = str "Ahri dynastique".
Proof.
  split; [by vm_compute|].
  refine (proj1 (fetchChampionSkins_names
    (λ _, Responded true (Some (DDragonChampionDetail.mk (str "champion")
       (str "standAloneComplex") (str "15.1.1")
       {[str "Ahri" := DDragonChampion.mk (str "Ahri") (str "Ahri")
          [DDragonSkin.mk (str "103000") 0 (str "default") false;
           DDragonSkin.mk (str "103001") 1 (str " Ahri dynastique ") false]]})))
    (str "15.1.1") DDRAGON_LOCALE (str "Ahri") (str "Ahri dynastique") _)).
  apply (bool_decide_unpack _). vm_compute. exact I.
Defined.

Lemma updateChampion_other id (updater : Champion.t → Gen Champion.t) prev n :
  id ∉ (Champion.id <$> prev) → updateChampion id updater prev n = (prev, n).
Proof.
  unfold updateChampion.
  set (f := λ c, if bool_decide (Champion.id c = id) then updater c else mret c).
  induction prev as [|c prev IH]; intros Hid; [done|].
  rewrite fmap_cons in Hid. apply not_elem_of_cons in Hid as [Hc Hid].
  rewrite mapM_gen_cons. unfold f at 1.
  rewrite bool_decide_eq_false_2 by done. cbn [mret gen_ret]. by rewrite IH.
Qed.

Lemma updateChampion_single id (updater : Champion.t → Gen Champion.t) prev n :
  NoDup (Champion.id <$> prev) →
  (updateChampion id updater prev n).1
  = (λ c, if bool_decide (Champion.id c = id) then (updater c n).1 else c) <$> prev.
Proof.
  revert n. induction prev as [|c prev IH]; intros n Hnd; [done|].
  rewrite fmap_cons in Hnd. apply NoDup_cons in Hnd as [Hc Hnd].
  unfold updateChampion in *. rewrite mapM_gen_cons, fmap_cons.
  destruct (decide (Champion.id c = id)) as [Hid|Hid].
  - rewrite (bool_decide_eq_true_2 _ Hid). destruct (updater c n) as [c' n1].
    rewrite Hid in Hc. pose proof (updateChampion_other id updater prev n1 Hc) as Hrest.
    unfold updateChampion in Hrest. rewrite Hrest. cbn [fst]. f_equal.
    clear -Hc. induction prev as [|x prev IH]; [done|].
    rewrite fmap_cons in Hc. apply not_elem_of_cons in Hc as [Hx Hc].
    rewrite fmap_cons, <- IH by done. by rewrite bool_decide_eq_false_2.
  - rewrite (bool_decide_eq_false_2 _ Hid). cbn [mret gen_ret].
    specialize (IH n Hnd). destruct (mapM (M:=Gen) _ prev n) as [ys n2].
    cbn [fst] in *. by rewrite IH.
Qed.

(** X19: the prefill that succeeds.  When the catalog is set up, the key
    map resolves the champion's name, the fetch returns at least one name
    and the champion ids are pairwise distinct, [prefillChampion] replaces
    the current champion with that id by the result of [mergeSkins] on the
    current state and the fetched names, and returns every other champion
    as it was; afterwards the skins of that champion correspond one to one,
    in order, to the fetched names. *)
Theorem prefillChampion_merges `{UidSource} fetch version keyMap key c prev n :
  version ≠ [] →
  keyMap !! normalize (Champion.name c) = Some key →
  key ≠ [] →
  fetchChampionSkins fetch version DDRAGON_LOCALE key ≠ [] →
  NoDup (Champion.id <$> prev) →
  (prefillChampion fetch (Some version) (Some keyMap) c prev n).1
  = (λ curr, if bool_decide (Champion.id curr = Champion.id c)
             then (mergeSkins curr (fetchChampionSkins fetch version DDRAGON_LOCALE key) n).1
             else curr) <$> prev
  ∧ ∀ curr, curr ∈ (prefillChampion fetch (Some version) (Some keyMap) c prev n).1 →
      Champion.id curr = Champion.id c →
      (λ s, normalize (Skin.name s)) <$> Champion.skins curr
      = normalize <$> fetchChampionSkins fetch version DDRAGON_LOCALE key.
Proof.
  intros Hv Hkey Hk Hnames Hnd.
  assert ((prefillChampion fetch (Some version) (Some keyMap) c prev n).1
          = (λ curr, if bool_decide (Champion.id curr = Champion.id c)
                     then (mergeSkins curr
                             (fetchChampionSkins fetch version DDRAGON_LOCALE key) n).1
                     else curr) <$> prev) as Heq.
  { unfold prefillChampion.
    rewrite (bool_decide_eq_false_2 _ Hv), Hkey, (bool_decide_eq_false_2 _ Hk).
    rewrite bool_decide_eq_false_2
      by (by destruct (fetchChampionSkins fetch version DDRAGON_LOCALE key)).
    by apply updateChampion_single. }
  split; [exact Heq|]. rewrite Heq.
  intros curr (x & -> & Hx)%list_elem_of_fmap.
  case_bool_decide as Hid; [intros _|by intros ?].
  rewrite mergeSkins_unfold. apply merged_keys.
Qed.

Lemma prefillChampion_merges_witness :
  let champ := DDragonChampion.mk (str "Ahri") (str "Ahri")
                 [DDragonSkin.mk (str "103000") 0 (str "default") false;
                  DDragonSkin.mk (str "103001") 1 (str "Foxfire") false;
                  DDragonSkin.mk (str "103002") 2 (str "Midnight") false] in
  let fetch := λ _ : jsstring,
    Responded true (Some (DDragonChampionDetail.mk (str "champion") (str "standAloneComplex")
                            (str "15.1.1") {[str "Ahri" := champ]})) in
  let c := ahri [skin "s1" "foxfire" true] in
  (prefillChampion (H:=sample_uid) fetch (Some (str "15.1.1"))
     (Some {[str "ahri" := str "Ahri"]}) c [c] 0).1
  = [ahri [skin "s1" "foxfire" true;
           Skin.mk (str "uid-" ++ [0%N]) (str "Midnight") false]].
Proof.
  etrans.
  - refine (proj1 (prefillChampion_merges (H:=sample_uid)
      (λ _, Responded true (Some (DDragonChampionDetail.mk (str "champion")
         (str "standAloneComplex") (str "15.1.1")
         {[str "Ahri" := DDragonChampion.mk (str "Ahri") (str "Ahri")
            [DDragonSkin.mk (str "103000") 0 (str "default") false;
             DDragonSkin.mk (str "103001") 1 (str "Foxfire") false;
             DDragonSkin.mk (str "103002") 2 (str "Midnight") false]]})))
      (str "15.1.1") {[str "ahri" := str "Ahri"]} (str "Ahri")
      (ahri [skin "s1" "foxfire" true]) [ahri [skin "s1" "foxfire" true]] 0
      _ _ _ _ _)).
    + by vm_compute.
    + by vm_compute.
    + by vm_compute.
    + by vm_compute.
    + apply (bool_decide_unpack _). vm_compute. exact I.
  - by vm_compute.
Defined.

(** X20: files that [importJson] cannot use.  When the file cannot be read,
    is not JSON, is not an array, or is an array with a [null] element, the
    [catch] block runs: the state is not updated and no identifier is
    drawn.  When the array is readable but the entry kept for the name of a
    current champion has a [null] among its skins, the updater itself
    throws, outside the [try]. *)
Theorem importJson_unusable `{UidSource} file prev n :
  (match file with
   | FileJson (VArray elems) => VNull ∈ elems
   | _ => True
   end → importJson file prev n = (Alerted, n))
  ∧ (∀ elems c entry items,
       file = FileJson (VArray elems) → Forall readable elems →
       c ∈ prev → lastEntityNamed (Champion.name c) elems = Some entry →
       entityProp (str "skins") entry = VArray items → VNull ∈ items →
       (importJson file prev n).1 = UpdaterThrew).
Proof.
  split.
  - unfold importJson. destruct file as [| |[| | | | |elems|]]; try done.
    intros Hnull. by rewrite indexByName_null.
  - intros elems c entry items -> Hread Hc Hentry Hskins Hnull.
    unfold importJson.
    destruct (indexByName_readable ∅ elems n Hread) as (byName & -> & HbyName).
    assert ((mapM (importChampion byName) prev n).1 = None) as Hthrow.
    { apply (mapM_js_throw _ _ c); [done|]. intros m. unfold importChampion.
      rewrite HbyName, lookup_empty, Hentry.
      apply lastEntityNamed_Some in Hentry as [_ Hnamed].
      pose proof (isNamed_readable _ _ Hnamed) as Hr.
      apply isNamed_object in Hnamed as [_ ->].
      rewrite (js_bind_Some _ _ _ _ _ (prop_readable entry _ m Hr)), Hskins.
      assert ((mapM shapeSkin items m).1 = None) as Hitems.
      { by apply (mapM_js_throw _ _ VNull). }
      destruct (mapM shapeSkin items m) as [[?|] m1] eqn:Hm; [done|].
      rewrite (js_bind_None _ _ m m1); [done|].
      by rewrite (js_bind_None _ _ _ _ Hm). }
    by destruct (mapM (importChampion byName) prev n) as [[?|] n1].
Qed.
